(** * notification-controller: event routing, metadata clean-up, webhook paths

    A shallow embedding of the parts of the notification controller that
    decide how an incoming event is matched against Alerts, how its
    metadata is cleaned, how a Receiver's webhook path is derived, how a
    Provider is turned into a notifier and how the CDEvents sender chooses
    its payload, followed by the properties proved about them.

    Go strings are byte sequences; they are modelled by [string] (a list of
    8-bit characters). Go maps are modelled by [gmap]; a nil-able map is an
    [option] of one. *)

From Stdlib Require Import ZArith List Ascii String Bool Lia.
From stdpp Require Import base option list strings gmap fin_maps.

Open Scope string_scope.
Open Scope list_scope.

(** ** The parts of Go's standard library that the code calls *)

Module Go.

(** strings.HasPrefix: byte-wise test that [s] begins with [prefix]. *)
Fixpoint HasPrefix (s prefix : string) {struct prefix} : bool :=
  match prefix, s with
  | EmptyString, _ => true
  | String p prefix', String c s' =>
      if Ascii.eqb p c then HasPrefix s' prefix' else false
  | String _ _, EmptyString => false
  end.

(** The tail of [s] after [length prefix] bytes, when [s] begins with
    [prefix]. *)
Fixpoint dropPrefix (s prefix : string) {struct prefix} : option string :=
  match prefix, s with
  | EmptyString, _ => Some s
  | String p prefix', String c s' =>
      if Ascii.eqb p c then dropPrefix s' prefix' else None
  | String _ _, EmptyString => None
  end.

(** strings.TrimPrefix: [s] without the leading [prefix]; [s] itself when
    it does not begin with [prefix]. *)
Definition TrimPrefix (s prefix : string) : string :=
  match dropPrefix s prefix with
  | Some rest => rest
  | None => s
  end.

(** []byte(s): the bytes of a string, as numbers below 256. *)
Fixpoint bytes (s : string) : list Z :=
  match s with
  | EmptyString => []
  | String c s' => Z.of_N (N_of_ascii c) :: bytes s'
  end.

(** *** crypto/sha256 (FIPS 180-4), on 32-bit words held in [Z] *)

Definition mask32 : Z := 0xFFFFFFFF.
Definition add32 (x y : Z) : Z := Z.land (x + y) mask32.
Definition rotr (n x : Z) : Z :=
  Z.lor (Z.shiftr x n) (Z.land (Z.shiftl x (32 - n)) mask32).
Definition not32 (x : Z) : Z := Z.lxor x mask32.

Definition Ch (x y z : Z) : Z := Z.lxor (Z.land x y) (Z.land (not32 x) z).
Definition Maj (x y z : Z) : Z :=
  Z.lxor (Z.lxor (Z.land x y) (Z.land x z)) (Z.land y z).
Definition bigSigma0 (x : Z) : Z := Z.lxor (Z.lxor (rotr 2 x) (rotr 13 x)) (rotr 22 x).
Definition bigSigma1 (x : Z) : Z := Z.lxor (Z.lxor (rotr 6 x) (rotr 11 x)) (rotr 25 x).
Definition smallSigma0 (x : Z) : Z := Z.lxor (Z.lxor (rotr 7 x) (rotr 18 x)) (Z.shiftr x 3).
Definition smallSigma1 (x : Z) : Z := Z.lxor (Z.lxor (rotr 17 x) (rotr 19 x)) (Z.shiftr x 10).

(** The round constants and the initial hash value are the first 32 bits
    of the fractional parts of the cube roots of the first 64 primes and of
    the square roots of the first 8. *)
Definition is_prime (n : nat) : bool :=
  forallb (fun d => negb (n mod d =? 0)%nat) (seq 2 (n - 2)).

Definition primes_below (n : nat) : list Z :=
  List.map Z.of_nat (List.filter is_prime (seq 2 (n - 2))).

(** The integer cube root of [n], built from bit [bits - 1] downwards. *)
Fixpoint icbrt (bits : nat) (n r : Z) : Z :=
  match bits with
  | O => r
  | S b =>
      let r' := (r + 2 ^ Z.of_nat b)%Z in
      icbrt b n (if (r' * r' * r' <=? n)%Z then r' else r)
  end.

Definition cbrt_fraction (p : Z) : Z := Z.land (icbrt 36 (p * 2 ^ 96) 0) mask32.
Definition sqrt_fraction (p : Z) : Z := Z.land (Z.sqrt (p * 2 ^ 64)) mask32.

Definition K256 : list Z := Eval vm_compute in List.map cbrt_fraction (primes_below 312).

Definition H256 : list Z := Eval vm_compute in List.map sqrt_fraction (primes_below 20).

(** Big-endian bytes of the low [8 * n] bits of [x]. *)
Fixpoint be_bytes (n : nat) (x : Z) : list Z :=
  match n with
  | O => []
  | S n' => Z.land (Z.shiftr x (8 * Z.of_nat n')) 0xFF :: be_bytes n' x
  end.

(** Message padding: a 1 bit, zeros up to 56 mod 64, the bit length on 64
    bits. *)
Definition pad (msg : list Z) : list Z :=
  let len := Z.of_nat (length msg) in
  let zeros := Z.to_nat ((55 - len) mod 64) in
  (msg ++ 0x80%Z :: repeat 0%Z zeros) ++ be_bytes 8 (8 * len).

Fixpoint be_words (bs : list Z) : list Z :=
  match bs with
  | a :: b :: c :: d :: rest =>
      (Z.shiftl a 24 + Z.shiftl b 16 + Z.shiftl c 8 + d)%Z :: be_words rest
  | _ => []
  end.

Definition nthw (ws : list Z) (i : nat) : Z := nth i ws 0%Z.

(** Message schedule: extends the 16 words of a block by [n] more. *)
Fixpoint schedule (n : nat) (w : list Z) : list Z :=
  match n with
  | O => w
  | S n' =>
      let t := length w in
      let x := add32 (add32 (smallSigma1 (nthw w (t - 2))) (nthw w (t - 7)))
                     (add32 (smallSigma0 (nthw w (t - 15))) (nthw w (t - 16))) in
      schedule n' (w ++ [x])
  end.

Record regs := Regs { ra : Z; rb : Z; rc : Z; rd : Z; re : Z; rf : Z; rg : Z; rh : Z }.

Definition round (r : regs) (kw : Z * Z) : regs :=
  let t1 := add32 (add32 (add32 (rh r) (bigSigma1 (re r))) (Ch (re r) (rf r) (rg r)))
                  (add32 (fst kw) (snd kw)) in
  let t2 := add32 (bigSigma0 (ra r)) (Maj (ra r) (rb r) (rc r)) in
  Regs (add32 t1 t2) (ra r) (rb r) (rc r) (add32 (rd r) t1) (re r) (rf r) (rg r).

Definition regs_of (h : list Z) : regs :=
  Regs (nthw h 0) (nthw h 1) (nthw h 2) (nthw h 3) (nthw h 4) (nthw h 5) (nthw h 6) (nthw h 7).

Definition compress (h : list Z) (block : list Z) : list Z :=
  let w := schedule 48 (be_words block) in
  let r := fold_left round (combine K256 w) (regs_of h) in
  [ add32 (nthw h 0) (ra r); add32 (nthw h 1) (rb r); add32 (nthw h 2) (rc r);
    add32 (nthw h 3) (rd r); add32 (nthw h 4) (re r); add32 (nthw h 5) (rf r);
    add32 (nthw h 6) (rg r); add32 (nthw h 7) (rh r) ].

(** Folds [compress] over the first [n] 64-byte blocks of [bs]. *)
Fixpoint blocks (n : nat) (h : list Z) (bs : list Z) : list Z :=
  match n with
  | O => h
  | S n' => blocks n' (compress h (firstn 64 bs)) (skipn 64 bs)
  end.

(** sha256.Sum256: the 32-byte digest. *)
Definition Sum256 (msg : list Z) : list Z :=
  let p := pad msg in
  flat_map (be_bytes 4) (blocks (length p / 64) H256 p).

(** *** fmt's %x verb on a byte array: two lowercase hex digits a byte *)

Definition hexdigit (n : Z) : ascii :=
  if (n <? 10)%Z then ascii_of_N (Z.to_N (48 + n)) else ascii_of_N (Z.to_N (87 + n)).

Fixpoint hex (bs : list Z) : string :=
  match bs with
  | [] => EmptyString
  | b :: bs' => String (hexdigit (Z.shiftr b 4)) (String (hexdigit (Z.land b 15)) (hex bs'))
  end.

(** *** Functions of package strings that work on runes

    strings.ToLower and strings.EqualFold follow Unicode's simple case
    mappings; the development is parametric in them. *)

Class Strings := {
  ToLower : string -> string;
  EqualFold : string -> string -> bool
}.

(** Their restriction to ASCII letters, used to run the model on ASCII
    inputs, where it agrees with the Go functions. *)
Definition lower_ascii (c : ascii) : ascii :=
  let n := N_of_ascii c in
  if ((65 <=? n) && (n <=? 90))%N then ascii_of_N (n + 32) else c.

Fixpoint ascii_ToLower (s : string) : string :=
  match s with
  | EmptyString => EmptyString
  | String c s' => String (lower_ascii c) (ascii_ToLower s')
  end.

Definition ascii_EqualFold (s t : string) : bool :=
  String.eqb (ascii_ToLower s) (ascii_ToLower t).

Definition ascii_Strings : Strings :=
  {| ToLower := ascii_ToLower; EqualFold := ascii_EqualFold |}.

(** *** Ranging over a map

    A range statement visits every entry once, in an order the language
    leaves open. *)

Class MapRange := {
  range : gmap string string -> list (string * string);
  range_perm : forall m, range m ≡ₚ map_to_list m
}.

(** One such order: that of [map_to_list]. *)
Definition fixed_MapRange : MapRange :=
  {| range := map_to_list; range_perm := fun m => Permutation_refl (map_to_list m) |}.

(** *** Results of fallible calls *)

Definition error := string.

Inductive result (A : Type) : Type :=
| Ok (a : A)
| Err (e : error).
Global Arguments Ok {A} a.
Global Arguments Err {A} e.

(** fmt.Errorf("<msg>: %w", err) *)
Definition wrap (msg : string) (e : error) : error := msg +:+ ": " +:+ e.

End Go.


Import Go.

(** ** k8s.io/api and k8s.io/apimachinery types the code reads *)

Module k8s.

Record GroupVersionKind := {
  Group : string;
  Version : string;
  gvk_Kind : string
}.

(** corev1.ObjectReference *)
Record ObjectReference := {
  Kind : string;
  Namespace : string;
  Name : string;
  UID : string;
  APIVersion : string;
  ResourceVersion : string
}.

Fixpoint count_slash (s : string) : nat :=
  match s with
  | EmptyString => 0
  | String c s' => (if Ascii.eqb c "/" then 1 else 0) + count_slash s'
  end.

(** The parts of [gv] before and after its first '/'. *)
Fixpoint split_slash (s : string) : string * string :=
  match s with
  | EmptyString => (EmptyString, EmptyString)
  | String c s' =>
      if Ascii.eqb c "/" then (EmptyString, s')
      else let (g, v) := split_slash s' in (String c g, v)
  end.

(** schema.FromAPIVersionAndKind, over schema.ParseGroupVersion: an
    apiVersion without '/' is a version of the core (empty) group, one
    with a single '/' is group/version, anything else gives an empty
    group and version. *)
Definition FromAPIVersionAndKind (apiVersion kind : string) : GroupVersionKind :=
  if String.eqb apiVersion "" || String.eqb apiVersion "/" then
    {| Group := ""; Version := ""; gvk_Kind := kind |}
  else
    match count_slash apiVersion with
    | 0 => {| Group := ""; Version := apiVersion; gvk_Kind := kind |}
    | 1 => let (g, v) := split_slash apiVersion in
           {| Group := g; Version := v; gvk_Kind := kind |}
    | _ => {| Group := ""; Version := ""; gvk_Kind := kind |}
    end.

(** ObjectReference.GroupVersionKind *)
Definition GetGroupVersionKind (obj : ObjectReference) : GroupVersionKind :=
FromAPIVersionAndKind (APIVersion obj) (Kind obj).

(** corev1.Secret: only its Data is read. *)
Record Secret := { Data : gmap string string }.

(** Label selection (metav1.LabelSelectorAsSelector and
    labels.Selector.Matches): building a selector validates the keys and
    values and may fail, in which case the selector returned is nil. *)
Class Labels := {
  Selector : Type;
  LabelSelectorAsSelector : gmap string string -> result Selector;
  Matches : Selector -> gmap string string -> bool
}.

End k8s.

(** ** github.com/fluxcd/pkg/apis/event/v1beta1 *)

Module eventv1.

Definition EventSeverityInfo : string := "info".
Definition MetaChecksumKey : string := "checksum".

Record Event := {
  InvolvedObject : k8s.ObjectReference;
  Severity : string;
  Timestamp : string;
  Message : string;
  Reason : string;
  Metadata : option (gmap string string);
  ReportingController : string;
  ReportingInstance : string
}.

Definition with_Metadata (e : Event) (m : option (gmap string string)) : Event :=
  {| InvolvedObject := InvolvedObject e; Severity := Severity e;
     Timestamp := Timestamp e; Message := Message e; Reason := Reason e;
     Metadata := m;
     ReportingController := ReportingController e;
     ReportingInstance := ReportingInstance e |}.

Definition with_Severity (e : Event) (sev : string) : Event :=
  {| InvolvedObject := InvolvedObject e; Severity := sev;
     Timestamp := Timestamp e; Message := Message e; Reason := Reason e;
     Metadata := Metadata e;
     ReportingController := ReportingController e;
     ReportingInstance := ReportingInstance e |}.

End eventv1.

(** ** api/v1beta2: Alert, Provider and Receiver *)

Module apiv1.

Definition ProviderKind : string := "Provider".
Definition ReceiverWebhookPath : string := "/hook/".

(** Modelled from the spec: the event sources of an Alert (the type
    CrossNamespaceObjectReference is declared outside the sources at hand),
    with the fields section 3 lists and the handler reads; [MatchLabels] is
    nil-able. *)
Record CrossNamespaceObjectReference := {
  src_APIVersion : string;
  src_Kind : string;
  src_Name : string;
  src_Namespace : string;
  src_MatchLabels : option (gmap string string)
}.

Definition with_Namespace (s : CrossNamespaceObjectReference) (ns : string)
  : CrossNamespaceObjectReference :=
  {| src_APIVersion := src_APIVersion s; src_Kind := src_Kind s;
     src_Name := src_Name s; src_Namespace := ns;
     src_MatchLabels := src_MatchLabels s |}.

(** Modelled from the spec: the Alert type, declared outside the sources
    at hand, with the fields section 3 lists and the handler reads;
    [ProviderRef] is the provider's name. *)
Record AlertSpec := {
  ProviderRef : string;
  EventSeverity : string;
  EventSources : list CrossNamespaceObjectReference;
  ExclusionList : list string;
  Summary : string;
  alert_Suspend : bool
}.

Record Alert := {
  alert_Name : string;
  alert_Namespace : string;
  alert_Spec : AlertSpec
}.

(** Durations are counted in nanoseconds. *)
Definition Second : Z := 1000000000.

Record ProviderSpec := {
  Type_ : string;
  Interval : Z;
  Channel : string;
  Username : string;
  Address : string;
  Timeout : option Z;
  Proxy : string;
  SecretRef : option string;
  CertSecretRef : option string;
  provider_Suspend : bool
}.

Record Provider := {
  provider_Name : string;
  provider_Namespace : string;
  provider_UID : string;
  provider_Spec : ProviderSpec
}.

Definition GetTimeout (p : Provider) : Z :=
  let duration := (15 * Second)%Z in
  match Timeout (provider_Spec p) with
  | Some d => d
  | None => duration
  end.

(** The Receiver, reduced to the object metadata GetWebhookPath reads. *)
Record Receiver := {
  receiver_Name : string;
  receiver_Namespace : string
}.

Definition GetName (r : Receiver) : string := receiver_Name r.
Definition GetNamespace (r : Receiver) : string := receiver_Namespace r.

Definition GetWebhookPath (r : Receiver) (token : string) : string :=
  let digest := Sum256 (bytes (token +:+ GetName r +:+ GetNamespace r)) in
  ReceiverWebhookPath +:+ hex digest.

End apiv1.

Import k8s eventv1 apiv1.

(** ** internal/notifier: the CDEvents sender *)

Module notifier.

(** The CDEvent kinds of github.com/cdevents/sdk-go that the sender
    builds. *)
Inductive CDEventType :=
| EnvironmentModified
| TaskRunFinished
| TestCaseRunFinished
| ServiceDeployed
| IncidentDetected.

(** cdevents.Reference *)
Record Reference := { ref_Id : string; ref_Source : string }.

(** A CDEvent, reduced to what the sender sets and reads. The zero value
    of a string field is the empty string. *)
Record CDEvent := {
  cd_Type : CDEventType;
  cd_Id : string;
  cd_Timestamp : string;
  cd_Source : string;
  cd_SubjectId : string;
  cd_SubjectOutcome : string;
  cd_SubjectArtifactId : string;
  cd_SubjectEnvironment : option Reference;
  cd_CustomData : option (string * Event)
}.

(** Modelled from the spec: postMessage, the package's shared transport
    of section 4.B, declared outside the sources at hand; it takes the URL,
    the proxy, the certificate pool, the payload and the headers of the
    request hook and returns nil or an error. The other fields are what the
    sender takes from the CDEvents SDK (a fresh event id and timestamp, the
    type names) and from crypto/x509 (certificate pools). *)
Class Env := {
  NewId : CDEventType -> string;
  NewTimestamp : CDEventType -> string;
  TypeString : CDEventType -> string;
  CertPool : Type;
  postMessage : string -> string -> option CertPool -> CDEvent ->
                list (string * string) -> option error
}.

Section Sender.
Context `{Strings} `{MapRange} `{Env}.

(** cdevents.New<Kind>Event *)
Definition NewEvent (t : CDEventType) : CDEvent :=
  {| cd_Type := t; cd_Id := NewId t; cd_Timestamp := NewTimestamp t;
     cd_Source := ""; cd_SubjectId := ""; cd_SubjectOutcome := "";
     cd_SubjectArtifactId := ""; cd_SubjectEnvironment := None;
     cd_CustomData := None |}.

Definition SetSubjectOutcome (p : CDEvent) (o : string) : CDEvent :=
  {| cd_Type := cd_Type p; cd_Id := cd_Id p; cd_Timestamp := cd_Timestamp p;
     cd_Source := cd_Source p; cd_SubjectId := cd_SubjectId p;
     cd_SubjectOutcome := o;
     cd_SubjectArtifactId := cd_SubjectArtifactId p;
     cd_SubjectEnvironment := cd_SubjectEnvironment p;
     cd_CustomData := cd_CustomData p |}.

Definition SetSubjectArtifactId (p : CDEvent) (a : string) : CDEvent :=
  {| cd_Type := cd_Type p; cd_Id := cd_Id p; cd_Timestamp := cd_Timestamp p;
     cd_Source := cd_Source p; cd_SubjectId := cd_SubjectId p;
     cd_SubjectOutcome := cd_SubjectOutcome p;
     cd_SubjectArtifactId := a;
     cd_SubjectEnvironment := cd_SubjectEnvironment p;
     cd_CustomData := cd_CustomData p |}.

Definition SetSubjectEnvironment (p : CDEvent) (r : Reference) : CDEvent :=
  {| cd_Type := cd_Type p; cd_Id := cd_Id p; cd_Timestamp := cd_Timestamp p;
     cd_Source := cd_Source p; cd_SubjectId := cd_SubjectId p;
     cd_SubjectOutcome := cd_SubjectOutcome p;
     cd_SubjectArtifactId := cd_SubjectArtifactId p;
     cd_SubjectEnvironment := Some r;
     cd_CustomData := cd_CustomData p |}.

Definition SetSource (p : CDEvent) (src : string) : CDEvent :=
  {| cd_Type := cd_Type p; cd_Id := cd_Id p; cd_Timestamp := cd_Timestamp p;
     cd_Source := src; cd_SubjectId := cd_SubjectId p;
     cd_SubjectOutcome := cd_SubjectOutcome p;
     cd_SubjectArtifactId := cd_SubjectArtifactId p;
     cd_SubjectEnvironment := cd_SubjectEnvironment p;
     cd_CustomData := cd_CustomData p |}.

Definition SetCustomData (p : CDEvent) (contentType : string) (data : Event) : CDEvent :=
  {| cd_Type := cd_Type p; cd_Id := cd_Id p; cd_Timestamp := cd_Timestamp p;
     cd_Source := cd_Source p; cd_SubjectId := cd_SubjectId p;
     cd_SubjectOutcome := cd_SubjectOutcome p;
     cd_SubjectArtifactId := cd_SubjectArtifactId p;
     cd_SubjectEnvironment := cd_SubjectEnvironment p;
     cd_CustomData := Some (contentType, data) |}.

Definition SetSubjectId (p : CDEvent) (id : string) : CDEvent :=
  {| cd_Type := cd_Type p; cd_Id := cd_Id p; cd_Timestamp := cd_Timestamp p;
     cd_Source := cd_Source p; cd_SubjectId := id;
     cd_SubjectOutcome := cd_SubjectOutcome p;
     cd_SubjectArtifactId := cd_SubjectArtifactId p;
     cd_SubjectEnvironment := cd_SubjectEnvironment p;
     cd_CustomData := cd_CustomData p |}.

(** CDEvents holds the incoming webhook URL. *)
Record CDEvents := {
  URL : string;
  ProxyURL : string;
  cde_CertPool : option CertPool
}.

Record CDEventsField := { field_Name : string; field_Value : string }.

(** The switch of Post on the lower-cased Reason. *)
Definition Post_switch (event : Event) : CDEvent :=
  let reason := ToLower (Reason event) in
  if String.eqb reason "installsucceeded" then
    NewEvent EnvironmentModified
  else if String.eqb reason "upgradesucceeded" then
    SetSubjectOutcome (NewEvent TaskRunFinished) "Success"
  else if String.eqb reason "upgradefailed" then
    SetSubjectOutcome (NewEvent TaskRunFinished) "Failure"
  else if String.eqb reason "testsucceeded" then
    SetSubjectOutcome (NewEvent TestCaseRunFinished) "Success"
  else if String.eqb reason "testfailed" then
    SetSubjectOutcome (NewEvent TestCaseRunFinished) "Success"
  else if String.eqb reason "rollbacksucceeded" then
    SetSubjectOutcome (NewEvent TaskRunFinished) "Success"
  else if String.eqb reason "rollbackfailed" then
    SetSubjectOutcome (NewEvent TaskRunFinished) "Failure"
  else if String.eqb reason "driftdetected" then
    SetSubjectOutcome (NewEvent TaskRunFinished) "Failure"
  else if String.eqb reason "reconciliationsucceeded" then
    let mapEvent := NewEvent ServiceDeployed in
    let mapEvent := SetSubjectArtifactId mapEvent (UID (InvolvedObject event)) in
    let reference := {| ref_Id := UID (InvolvedObject event);
                        ref_Source := Name (InvolvedObject event) |} in
    SetSubjectEnvironment mapEvent reference
  else
    NewEvent IncidentDetected.

(** The payload Post hands to postMessage. *)
Definition Post_payload (event : Event) : CDEvent :=
  let payload := Post_switch event in
  let sourceFormat := Name (InvolvedObject event) +:+ "." +:+ Kind (InvolvedObject event) in
  let payload := SetSource payload sourceFormat in
  let payload := SetCustomData payload "application/json" event in
  SetSubjectId payload (UID (InvolvedObject event)).

(** The headers added by the request hook Post passes to postMessage. *)
Definition Post_headers (payload : CDEvent) : list (string * string) :=
  [ ("ce-type", TypeString (cd_Type payload));
    ("ce-specversion", "0.3");
    ("ce-source", cd_Source payload);
    ("ce-id", cd_Id payload);
    ("ce-time", cd_Timestamp payload);
    ("prefer", "reply");
    ("Accept", "application/json");
    ("Content-Type", "application/json; charset=UTF-8") ].

(** Post CDEvents message. [facts] is built and never read; [err1] is
    declared and never assigned. *)
Definition Post (s : CDEvents) (event : Event) : option error :=
  let facts :=
    match Metadata event with
    | Some md => map (fun kv => {| field_Name := fst kv; field_Value := snd kv |}) (range md)
    | None => []
    end in
  let err1 : option error := None in
  let payload := Post_payload event in
  let err := postMessage (URL s) (ProxyURL s) (cde_CertPool s) payload (Post_headers payload) in
  match err, err1 with
  | Some e, Some _ => Some (wrap "postMessage failed" e)
  | _, _ => None
  end.

End Sender.

(** Modelled from the spec: the notifier interface and the factory of
    section 4.A, declared outside the sources at hand. The factory
    aggregates the configuration createNotifier passes it and builds a
    notifier for a provider type, or fails. *)
Record Factory `{Env} := NewFactory {
  f_URL : string;
  f_ProxyURL : string;
  f_Username : string;
  f_Channel : string;
  f_Token : string;
  f_Headers : gmap string string;
  f_CertPool : option CertPool;
  f_Password : string;
  f_ProviderUID : string
}.

Class Interface `{Env} := {
  Notifier : Type;
  Notifier_Post : Notifier -> Event -> option error;
  Factory_Notifier : Factory -> string -> result Notifier
}.

End notifier.

(** ** internal/server: the event handler *)

Module server.
Import notifier.

(** What the handler needs from outside this file: regexp, net/url,
    sigs.k8s.io/yaml, crypto/x509, encoding/json and
    github.com/fluxcd/pkg/masktoken. *)
Class Env `{notifier.Env} := {
  Regexp : Type;
  regexp_Compile : string -> result Regexp;
  regexp_Match : Regexp -> string -> bool;
  url_Parse : string -> option error;
  yaml_Unmarshal : string -> result (gmap string string);
  AppendCertsFromPEM : string -> option CertPool;
  json_Unmarshal : string -> result Event;
  MaskTokenFromString : string -> string -> result string
}.

(** The object store, read through controller-runtime's client. *)
Record Client := {
  List_Alerts : result (list Alert);
  Get_Provider : string -> string -> result Provider;
  Get_Secret : string -> string -> result Secret;
  Get_Labels : GroupVersionKind -> string -> string -> result (gmap string string)
}.

Record EventServer := {
  kubeClient : Client;
  noCrossNamespaceRefs : bool
}.

Section Handlers.
Context `{Strings} `{MapRange} `{Labels} `{NE : notifier.Env}
        `{NI : !notifier.Interface} `{SE : !Env}.

(** A notification handed to a goroutine. *)
Record Delivery := {
  d_sender : Notifier;
  d_notification : Event;
  d_token : string;
  d_timeout : Z
}.

(** What a handler does besides returning: it logs, starts goroutines
    and writes the response status. *)
Inductive Effect :=
| LogError (err : error) (msg : string) (keysAndValues : list string)
| LogInfo (msg : string) (keysAndValues : list string)
| GoDeliver (d : Delivery)
| WriteHeader (status : Z).

(** A call either returns or panics. *)
Inductive Outcome (A : Type) :=
| Returned (a : A)
| Panicked.
Global Arguments Returned {A} a.
Global Arguments Panicked {A}.

Definition M (A : Type) : Type := (list Effect * Outcome A)%type.

Definition ret {A} (a : A) : M A := ([], Returned a).

Definition bind {A B} (m : M A) (k : A -> M B) : M B :=
  match m with
  | (t, Returned a) => let (t', r) := k a in (t ++ t', r)
  | (t, Panicked) => (t, Panicked)
  end.

Definition emit (e : Effect) : M unit := ([e], Returned tt).
Definition panic {A} : M A := ([], Panicked).

Notation "x <- m ;; k" := (bind m (fun x => k))
  (at level 100, m at next level, right associativity).
Notation "m ;;; k" := (bind m (fun _ => k))
  (at level 100, right associativity).

Definition StatusBadRequest : Z := 400.
Definition StatusAccepted : Z := 202.

Fixpoint inList (l : list string) (i : string) : bool :=
  match l with
  | [] => false
  | v :: l' => if EqualFold v i then true else inList l' i
  end.

(** The body of cleanupMetadata's loop for one entry. *)
Definition cleanupMetadata_step (group : string) (excludeList : list string)
    (meta : gmap string string) (kv : string * string) : gmap string string :=
  let (key, val) := kv in
  if HasPrefix key group && negb (inList excludeList key) then
    let newKey := TrimPrefix key (group +:+ "/") in
    <[newKey := val]> meta
  else meta.

(** cleanupMetadata removes metadata entries which are not used for
    alerting. *)
Definition cleanupMetadata (event : Event) : Event :=
  let group := Group (GetGroupVersionKind (InvolvedObject event)) in
  let excludeList := [group +:+ "/" +:+ MetaChecksumKey] in
  let meta : gmap string string := ∅ in
  let meta :=
    match Metadata event with
    | Some md =>
        if (0 <? size md)%nat then
          fold_left (cleanupMetadata_step group excludeList) (range md) meta
        else meta
    | None => meta
    end in
  with_Metadata event (Some meta).

(** messageIsExcluded returns if the given message matches with the
    exclusion rules. *)
Fixpoint messageIsExcluded_loop (msg : string) (exclusionList : list string) : M bool :=
  match exclusionList with
  | [] => ret false
  | exp :: rest =>
      match regexp_Compile exp with
      | Ok r =>
          if regexp_Match r msg then ret true
          else messageIsExcluded_loop msg rest
      | Err err =>
          emit (LogError err ("failed to compile regex: " +:+ exp) []) ;;;
          messageIsExcluded_loop msg rest
      end
  end.

Definition messageIsExcluded (msg : string) (exclusionList : list string) : M bool :=
  if (length exclusionList =? 0)%nat then ret false
  else messageIsExcluded_loop msg exclusionList.

(** The severity test of eventMatchesAlert: true when the event is
    turned down for its severity. *)
Definition severityMismatch (event : Event) (severity : string) : bool :=
  negb (String.eqb (Severity event) severity)
  && negb (String.eqb severity EventSeverityInfo).

(** eventMatchesAlert returns if a given event matches with the given
    alert source configuration and severity. *)
Definition eventMatchesAlert (s : EventServer) (event : Event)
    (source : CrossNamespaceObjectReference) (severity : string) : M bool :=
  let obj := InvolvedObject event in
  if negb (String.eqb (Namespace obj) (src_Namespace source))
     || negb (String.eqb (Kind obj) (src_Kind source)) then ret false
  else if severityMismatch event severity then ret false
  else if negb (String.eqb (src_Name source) "*")
          && negb (String.eqb (src_Name source) (Name obj)) then ret false
  else
    match src_MatchLabels source with
    | None => ret true
    | Some matchLabels =>
        labels <- match Get_Labels (kubeClient s) (GetGroupVersionKind obj)
                          (Namespace obj) (Name obj) with
                  | Ok l => ret l
                  | Err err =>
                      emit (LogError err "error getting object"
                              ["kind"; Kind obj; "name"; Name obj;
                               "apiVersion"; APIVersion obj]) ;;;
                      ret ∅
                  end ;;
        match LabelSelectorAsSelector matchLabels with
        | Ok sel => ret (Matches sel labels)
        | Err err =>
            emit (LogError err ("error using matchLabels from event source '"
                                +:+ src_Name source +:+ "'") []) ;;;
            panic
        end
    end.

(** eventMatchesAlertSources returns if a given event matches with any
    of the alert sources. *)
Fixpoint eventMatchesAlertSources_loop (s : EventServer) (event : Event)
    (alert : Alert) (sources : list CrossNamespaceObjectReference) : M bool :=
  match sources with
  | [] => ret false
  | source :: rest =>
      let source :=
        if String.eqb (src_Namespace source) "" then
          with_Namespace source (alert_Namespace alert)
        else source in
      matched <- eventMatchesAlert s event source (EventSeverity (alert_Spec alert)) ;;
      if matched then ret true
      else eventMatchesAlertSources_loop s event alert rest
  end.

Definition eventMatchesAlertSources (s : EventServer) (event : Event) (alert : Alert) : M bool :=
  eventMatchesAlertSources_loop s event alert (EventSources (alert_Spec alert)).

(** filterAlertsForEvent filters a given set of alerts against a given
    event, checking if the event matches with any of the alert event
    sources and is allowed by the exclusion list. *)
Fixpoint filterAlertsForEvent_loop (s : EventServer) (alerts : list Alert)
    (event : Event) (results : list Alert) : M (list Alert) :=
  match alerts with
  | [] => ret results
  | alert :: rest =>
      if alert_Suspend (alert_Spec alert) then
        filterAlertsForEvent_loop s rest event results
      else
        matched <- eventMatchesAlertSources s event alert ;;
        if negb matched then filterAlertsForEvent_loop s rest event results
        else
          excluded <- messageIsExcluded (Message event) (ExclusionList (alert_Spec alert)) ;;
          if excluded then filterAlertsForEvent_loop s rest event results
          else filterAlertsForEvent_loop s rest event (results ++ [alert])
  end.

Definition filterAlertsForEvent (s : EventServer) (alerts : list Alert) (event : Event)
  : M (list Alert) :=
  filterAlertsForEvent_loop s alerts event [].

Definition getAllAlertsForEvent (s : EventServer) (event : Event)
  : M (result (list Alert)) :=
  match List_Alerts (kubeClient s) with
  | Err err => ret (Err (wrap "failed listing alerts" err))
  | Ok items =>
      alerts <- filterAlertsForEvent s items event ;;
      ret (Ok alerts)
  end.

(** The local variables of createNotifier that the Secret may
    override. *)
Record Settings := {
  webhook : string;
  username : string;
  proxy : string;
  token : string;
  password : string;
  headers : gmap string string
}.

Definition and_then {A B} (r : result A) (k : A -> result B) : result B :=
  match r with
  | Ok a => k a
  | Err e => Err e
  end.

Notation "x <~ r ;; k" := (and_then r (fun x => k))
  (at level 100, r at next level, right associativity).

(** The first block of createNotifier: the overrides read from the
    Secret named by Spec.SecretRef. *)
Definition createNotifier_secret (kubeClient : Client) (provider : Provider)
    (c : Settings) : result Settings :=
  match SecretRef (provider_Spec provider) with
  | None => Ok c
  | Some name =>
      match Get_Secret kubeClient (provider_Namespace provider) name with
      | Err err => Err (wrap "failed to read secret" err)
      | Ok secret =>
          webhook <~ match Data secret !! "address" with
                     | Some address =>
                         match url_Parse address with
                         | Some err =>
                             Err (wrap ("invalid address in secret '" +:+ address +:+ "'") err)
                         | None => Ok address
                         end
                     | None => Ok (webhook c)
                     end ;;
          let password := match Data secret !! "password" with
                          | Some p => p
                          | None => password c
                          end in
          proxy <~ match Data secret !! "proxy" with
                   | Some p =>
                       match url_Parse p with
                       | Some err =>
                           Err (wrap ("invalid proxy in secret '" +:+ p +:+ "'") err)
                       | None => Ok p
                       end
                   | None => Ok (proxy c)
                   end ;;
          let token := match Data secret !! "token" with
                       | Some t => t
                       | None => token c
                       end in
          let username := match Data secret !! "username" with
                          | Some u => u
                          | None => username c
                          end in
          headers <~ match Data secret !! "headers" with
                     | Some h =>
                         match yaml_Unmarshal h with
                         | Err err => Err (wrap "failed to read headers from secret" err)
                         | Ok hs => Ok hs
                         end
                     | None => Ok (headers c)
                     end ;;
          Ok {| webhook := webhook; username := username; proxy := proxy;
                token := token; password := password; headers := headers |}
      end
  end.

(** The second block: the CA bundle read from Spec.CertSecretRef. *)
Definition createNotifier_certPool (kubeClient : Client) (provider : Provider)
  : result (option CertPool) :=
  match CertSecretRef (provider_Spec provider) with
  | None => Ok None
  | Some name =>
      match Get_Secret kubeClient (provider_Namespace provider) name with
      | Err err => Err (wrap "failed to read cert secret" err)
      | Ok secret =>
          match Data secret !! "caFile" with
          | None => Err (wrap "failed to read secret key caFile" "%!w(<nil>)")
          | Some caFile =>
              match AppendCertsFromPEM caFile with
              | None => Err (wrap "could not append to cert pool" "%!w(<nil>)")
              | Some pool => Ok (Some pool)
              end
          end
      end
  end.

Definition createNotifier (kubeClient : Client) (provider : Provider)
  : result (Notifier * string) :=
  let c := {| webhook := Address (provider_Spec provider);
              username := Username (provider_Spec provider);
              proxy := Proxy (provider_Spec provider);
              token := ""; password := ""; headers := ∅ |} in
  c <~ createNotifier_secret kubeClient provider c ;;
  certPool <~ createNotifier_certPool kubeClient provider ;;
  if String.eqb (webhook c) "" then Err "provider has no address"
  else
    let factory := NewFactory _ (webhook c) (proxy c) (username c)
                     (Channel (provider_Spec provider)) (token c) (headers c)
                     certPool (password c) (provider_UID provider) in
    match Factory_Notifier factory (Type_ (provider_Spec provider)) with
    | Err err => Err (wrap "failed to initialize notifier" err)
    | Ok sender => Ok (sender, token c)
    end.

(** getNotificationParams constructs the notification parameters from
    the given event and alert; [Ok None] stands for the all-nil return
    of a suspended provider. *)
Definition getNotificationParams (s : EventServer) (event : Event) (alert : Alert)
  : result (option Delivery) :=
  let obj := InvolvedObject event in
  if noCrossNamespaceRefs s
     && negb (String.eqb (Namespace obj) (alert_Namespace alert)) then
    let accessDenied :=
      "alert '" +:+ alert_Namespace alert +:+ "/" +:+ alert_Name alert
      +:+ "' can't process event from '" +:+ Kind obj +:+ "/" +:+ Namespace obj
      +:+ "/" +:+ Name obj +:+ "', cross-namespace references have been blocked" in
    Err (wrap "discarding event, access denied to cross-namespace sources" accessDenied)
  else
    match Get_Provider (kubeClient s) (alert_Namespace alert)
            (ProviderRef (alert_Spec alert)) with
    | Err err => Err (wrap "failed to read provider" err)
    | Ok provider =>
        if provider_Suspend (provider_Spec provider) then Ok None
        else
          match createNotifier (kubeClient s) provider with
          | Err err => Err (wrap "failed to initialize notifier" err)
          | Ok (sender, token) =>
              let summary := Summary (alert_Spec alert) in
              let notification :=
                if negb (String.eqb summary "") then
                  match Metadata event with
                  | None => with_Metadata event (Some {[ "summary" := summary ]})
                  | Some md => with_Metadata event (Some (<[ "summary" := summary ]> md))
                  end
                else event in
              Ok (Some {| d_sender := sender; d_notification := notification;
                          d_token := token; d_timeout := GetTimeout provider |})
          end
    end.

(** The goroutine started by dispatchNotification. *)
Definition deliver (event : Event) (d : Delivery) : M unit :=
  match Notifier_Post (d_sender d) (d_notification d) with
  | None => ret tt
  | Some err =>
      let err := match MaskTokenFromString err (d_token d) with
                 | Err maskErr => maskErr
                 | Ok maskedErrStr => maskedErrStr
                 end in
      emit (LogError err "failed to send notification"
              ["reconciler kind"; Kind (InvolvedObject event);
               "name"; Name (InvolvedObject event);
               "namespace"; Namespace (InvolvedObject event)])
  end.

(** dispatchNotification constructs and sends notification from the
    given event and alert data. *)
Definition dispatchNotification (s : EventServer) (event : Event) (alert : Alert)
  : M (option error) :=
  match getNotificationParams s event alert with
  | Err err => ret (Some err)
  | Ok None => ret None
  | Ok (Some d) => emit (GoDeliver d) ;;; ret None
  end.

Fixpoint handleEvent_dispatch (s : EventServer) (event : Event) (alerts : list Alert)
  : M unit :=
  match alerts with
  | [] => ret tt
  | alert :: rest =>
      err <- dispatchNotification s event alert ;;
      match err with
      | Some err =>
          emit (LogError err "failed to dispatch notification to provider"
                  ["reconciler kind"; ProviderKind;
                   "name"; ProviderRef (alert_Spec alert);
                   "namespace"; alert_Namespace alert])
      | None => ret tt
      end ;;;
      handleEvent_dispatch s event rest
  end.

(** An incoming request: what reading its body gives. *)
Record Request := { Body : result string }.

Definition involved (event : Event) : list string :=
  ["reconciler kind"; Kind (InvolvedObject event);
   "name"; Name (InvolvedObject event);
   "namespace"; Namespace (InvolvedObject event)].

Definition handleEvent (s : EventServer) (r : Request) : M unit :=
  match Body r with
  | Err err =>
      emit (LogError err "reading the request body failed" []) ;;;
      emit (WriteHeader StatusBadRequest)
  | Ok body =>
      match json_Unmarshal body with
      | Err err =>
          emit (LogError err "decoding the request body failed" []) ;;;
          emit (WriteHeader StatusBadRequest)
      | Ok event =>
          let event := cleanupMetadata event in
          res <- getAllAlertsForEvent s event ;;
          alerts <- match res with
                    | Err err =>
                        emit (LogError err "failed to get alerts for the event: %w" [err]) ;;;
                        ret []
                    | Ok alerts => ret alerts
                    end ;;
          if (length alerts =? 0)%nat then
            emit (LogInfo "Discarding event, no alerts found for the involved object"
                    (involved event)) ;;;
            emit (WriteHeader StatusAccepted)
          else
            emit (LogInfo ("Dispatching event: " +:+ Message event) (involved event)) ;;;
            handleEvent_dispatch s event alerts ;;;
            emit (WriteHeader StatusAccepted)
      end
  end.

(** The status the response carries: the first one written. *)
Fixpoint statusWritten (t : list Effect) : option Z :=
  match t with
  | [] => None
  | WriteHeader status :: _ => Some status
  | _ :: t' => statusWritten t'
  end.

End Handlers.
End server.

(** ** Concrete collaborators, to run the model *)

Module Sample.
Import notifier server.

Fixpoint contains (s sub : string) : bool :=
  HasPrefix s sub ||
  match s with
  | EmptyString => false
  | String _ s' => contains s' sub
  end.

Definition is_word_char (c : ascii) : bool :=
  let n := N_of_ascii c in
  ((48 <=? n) && (n <=? 57) || (65 <=? n) && (n <=? 90)
   || (97 <=? n) && (n <=? 122) || (n =? 32))%N.

Fixpoint all_word_chars (s : string) : bool :=
  match s with
  | EmptyString => true
  | String c s' => is_word_char c && all_word_chars s'
  end.

(** Selectors over exact labels; an empty key does not validate. *)
Definition labels : Labels :=
  {| Selector := gmap string string;
     LabelSelectorAsSelector := fun ml =>
       match ml !! "" with
       | Some _ => Err "name part must be non-empty"
       | None => Ok ml
       end;
     Matches := fun sel ls =>
       forallb (fun kv => bool_decide (ls !! fst kv = Some (snd kv))) (map_to_list sel) |}.

(** A transport that always fails. *)
Definition nenv : notifier.Env :=
  {| NewId := fun _ => "id-1";
     NewTimestamp := fun _ => "2024-01-01T00:00:00Z";
     TypeString := fun t =>
       match t with
       | EnvironmentModified => "dev.cdevents.environment.modified"
       | TaskRunFinished => "dev.cdevents.taskrun.finished"
       | TestCaseRunFinished => "dev.cdevents.testcaserun.finished"
       | ServiceDeployed => "dev.cdevents.service.deployed"
       | IncidentDetected => "dev.cdevents.incident.detected"
       end;
     CertPool := string;
     postMessage := fun _ _ _ _ _ => Some "connection refused" |}.

(** Notifiers named by their provider type and address. *)
Definition iface : @notifier.Interface nenv :=
  {| Notifier := string * string;
     Notifier_Post := fun _ _ => None;
     Factory_Notifier := fun f ty => Ok (ty, f_URL f) |}.

Definition helmRelease : ObjectReference :=
  {| Kind := "HelmRelease"; Namespace := "ns1"; Name := "podinfo";
     UID := "b6d37d27"; APIVersion := "helm.toolkit.fluxcd.io/v2beta2";
     ResourceVersion := "437798" |}.

Definition emptyObject : ObjectReference :=
  {| Kind := ""; Namespace := ""; Name := ""; UID := ""; APIVersion := "";
     ResourceVersion := "" |}.

Definition event_of (obj : ObjectReference) (severity message reason : string)
    (md : option (gmap string string)) : Event :=
  {| InvolvedObject := obj; Severity := severity; Timestamp := "";
     Message := message; Reason := reason; Metadata := md;
     ReportingController := ""; ReportingInstance := "" |}.

(** Patterns made of letters, digits and spaces compile and match as
    substrings, as they do in Go's regexp; other patterns are refused.
    The decoder reads the empty object and refuses the rest. *)
Definition senv : @server.Env nenv :=
  {| Regexp := string;
     regexp_Compile := fun exp =>
       if all_word_chars exp then Ok exp
       else Err ("error parsing regexp: " +:+ exp);
     regexp_Match := fun r msg => contains msg r;
     url_Parse := fun _ => None;
     yaml_Unmarshal := fun _ => Ok ∅;
     AppendCertsFromPEM := (fun pem => Some pem) : string -> option (@CertPool nenv);
     json_Unmarshal := fun body =>
       if String.eqb body "{}" then Ok (event_of emptyObject "" "" "" None)
       else Err "unexpected end of JSON input";
     MaskTokenFromString := fun s _ => Ok s |}.

Definition source_of (kind name ns : string) (ml : option (gmap string string))
  : CrossNamespaceObjectReference :=
  {| src_APIVersion := ""; src_Kind := kind; src_Name := name;
     src_Namespace := ns; src_MatchLabels := ml |}.

Definition alert_of (name : string) (severity : string)
    (sources : list CrossNamespaceObjectReference) (excl : list string)
    (suspend : bool) : Alert :=
  {| alert_Name := name; alert_Namespace := "ns1";
     alert_Spec := {| ProviderRef := "slack1"; EventSeverity := severity;
                      EventSources := sources; ExclusionList := excl;
                      Summary := ""; alert_Suspend := suspend |} |}.

Definition slack1 (address : string) (secretRef : option string) : Provider :=
  {| provider_Name := "slack1"; provider_Namespace := "ns1"; provider_UID := "p1";
     provider_Spec := {| Type_ := "slack"; Interval := 600 * Second;
                         Channel := "general"; Username := "flux";
                         Address := address; Timeout := None; Proxy := "";
                         SecretRef := secretRef; CertSecretRef := None;
                         provider_Suspend := false |} |}.

(** A store with the given alerts, the provider slack1 and one secret,
    "creds", that holds a token and no address. *)
Definition store (alerts : result (list Alert)) : Client :=
  {| List_Alerts := alerts;
     Get_Provider := fun ns name =>
       if String.eqb ns "ns1" && String.eqb name "slack1"
       then Ok (slack1 "" (Some "creds")) else Err "not found";
     Get_Secret := fun ns name =>
       if String.eqb ns "ns1" && String.eqb name "creds"
       then Ok {| Data := <["token" := "super-secret"]> ∅ |} else Err "not found";
     Get_Labels := fun _ _ _ => Err "not found" |}.

Definition srv (alerts : result (list Alert)) : EventServer :=
  {| kubeClient := store alerts; noCrossNamespaceRefs := false |}.

Definition anyHelmRelease : CrossNamespaceObjectReference :=
  source_of "HelmRelease" "*" "" None.

Definition paused : Alert := alert_of "paused" "info" [anyHelmRelease] [] true.
Definition live : Alert := alert_of "live" "info" [anyHelmRelease] [] false.
Definition quiet : Alert := alert_of "quiet" "info" [anyHelmRelease] ["("; "drift"] false.
Definition errorsOnly : Alert := alert_of "errors" "error" [anyHelmRelease] [] false.

Definition installed : Event :=
  event_of helmRelease "info" "install ok" "InstallSucceeded" None.
Definition drifted : Event :=
  event_of helmRelease "info" "Cluster drift detected" "DriftDetected" None.
Definition failed : Event :=
  event_of helmRelease "error" "upgrade failed" "UpgradeFailed" None.
Definition revised : Event :=
  event_of helmRelease "info" "install ok" "InstallSucceeded"
    (Some (<["helm.toolkit.fluxcd.io/revision" := "1.0"]> ∅)).

End Sample.

Import notifier server.

(** ** Properties of the event matcher *)

Section Matcher.
Context `{Strings} `{MapRange} `{Labels} `{NE : notifier.Env}
        `{NI : !notifier.Interface} `{SE : !server.Env}.

(** An exclusion entry that compiles and matches the message. *)
Definition excludes (msg exp : string) : Prop :=
  exists r, regexp_Compile exp = Ok r /\ regexp_Match r msg = true.

(** The record the loop logs for an entry that does not compile. *)
Definition compileFailure (exp : string) (err : error) : Effect :=
  LogError err ("failed to compile regex: " +:+ exp) [].

Lemma bind_returned {A B} (m : M A) (k : A -> M B) t b :
  bind m k = (t, Returned b) ->
  exists t1 a t2, m = (t1, Returned a) /\ k a = (t2, Returned b) /\ t = t1 ++ t2.
Proof.
  destruct m as [t1 [a|]]; simpl; [|discriminate].
  destruct (k a) as [t2 r] eqn:E. intros [= <- ->]. eauto 6.
Qed.

Lemma messageIsExcluded_loop_spec msg R :
  exists t b,
    messageIsExcluded_loop msg R = (t, Returned b)
    /\ (b = true <-> exists exp, exp ∈ R /\ excludes msg exp)
    /\ (forall e, e ∈ t ->
          exists exp err, exp ∈ R /\ regexp_Compile exp = Err err
                          /\ e = compileFailure exp err)
    /\ (forall l1 exp l2 err,
          R = l1 ++ exp :: l2 ->
          regexp_Compile exp = Err err ->
          (forall x, x ∈ l1 -> ~ excludes msg x) ->
          compileFailure exp err ∈ t).
Proof.
  induction R as [|exp R IH]; simpl.
  - exists [], false. repeat split.
    + discriminate.
    + intros (exp & Hin & _). inversion Hin.
    + intros e He. inversion He.
    + intros [|] ? ? ? Heq; discriminate.
  - destruct IH as (t & b & Heq & Hb & Hlog & Hall).
    destruct (regexp_Compile exp) as [r|err] eqn:Hc.
    + destruct (regexp_Match r msg) eqn:Hm.
      * exists [], true. repeat split.
        -- intros _. exists exp. split; [left|]. exists r; auto.
        -- intros e He. inversion He.
        -- intros [|x l1] exp' l2 err' Hsplit Hc' Hno.
           ++ injection Hsplit as -> _. congruence.
           ++ injection Hsplit as -> _. exfalso.
              apply (Hno x); [left|]. exists r; auto.
      * exists t, b. rewrite Heq. repeat split.
        -- intros Hbt. apply Hb in Hbt as (e & Hin & He).
           exists e; split; [right|]; auto.
        -- intros (e & Hin & He). apply Hb.
           apply elem_of_cons in Hin as [->|Hin]; [|eauto].
           destruct He as (r' & Hr' & Hm'). congruence.
        -- intros e He. destruct (Hlog e He) as (x & err & Hin & Hx & ->).
           exists x, err. split; [right|]; auto.
        -- intros [|x l1] exp' l2 err' Hsplit Hc' Hno.
           ++ injection Hsplit as -> _. congruence.
           ++ injection Hsplit as -> ->. eapply Hall; eauto.
              intros y Hy. apply Hno. right; auto.
    + exists (compileFailure exp err :: t), b.
      unfold bind, emit. rewrite Heq. simpl. repeat split.
      * intros Hbt. apply Hb in Hbt as (e & Hin & He).
        exists e; split; [right|]; auto.
      * intros (e & Hin & He). apply Hb.
        apply elem_of_cons in Hin as [->|Hin]; [|eauto].
        destruct He as (r' & Hr' & Hm'). congruence.
      * intros e He. apply elem_of_cons in He as [->|He].
        -- exists exp, err. split; [left|]; auto.
        -- destruct (Hlog e He) as (x & err' & Hin & Hx & ->).
           exists x, err'. split; [right|]; auto.
      * intros [|x l1] exp' l2 err' Hsplit Hc' Hno.
        -- injection Hsplit as -> _. rewrite Hc in Hc'. injection Hc' as ->. left.
        -- injection Hsplit as -> ->. right. eapply Hall; eauto.
           intros y Hy. apply Hno. right; auto.
Qed.

Lemma messageIsExcluded_returns msg R :
  exists t b, messageIsExcluded msg R = (t, Returned b).
Proof.
  unfold messageIsExcluded.
  destruct (messageIsExcluded_loop_spec msg R) as (t & b & Heq & _).
  destruct R; [unfold ret; eauto|]. simpl length. simpl Nat.eqb. eauto.
Qed.

(** C2. For every exclusion list [R] and message [msg], messageIsExcluded
    returns (it never panics), and it returns true exactly when some
    entry of [R] compiles and matches [msg]. Every record it logs is the
    compile failure of an entry of [R], so such an entry never excludes;
    and every entry that fails to compile and is not preceded by a
    matching entry is logged while the loop goes on to the entries after
    it. *)
Theorem messageIsExcluded_iff (msg : string) (R : list string) :
  exists t b,
    messageIsExcluded msg R = (t, Returned b)
    /\ (b = true <-> exists exp, exp ∈ R /\ excludes msg exp)
    /\ (forall e, e ∈ t ->
          exists exp err, exp ∈ R /\ regexp_Compile exp = Err err
                          /\ e = compileFailure exp err)
    /\ (forall l1 exp l2 err,
          R = l1 ++ exp :: l2 ->
          regexp_Compile exp = Err err ->
          (forall x, x ∈ l1 -> ~ excludes msg x) ->
          compileFailure exp err ∈ t).
Proof.
  unfold messageIsExcluded. destruct R as [|exp R].
  - apply (messageIsExcluded_loop_spec msg []).
  - apply (messageIsExcluded_loop_spec msg (exp :: R)).
Qed.

(** The labels eventMatchesAlert selects on: those of the live object,
    none when it cannot be read. *)
Definition fetchedLabels (s : EventServer) (event : Event) : gmap string string :=
  let obj := InvolvedObject event in
  match Get_Labels (kubeClient s) (GetGroupVersionKind obj) (Namespace obj) (Name obj) with
  | Ok l => l
  | Err _ => ∅
  end.

Lemma severityMismatch_false event severity :
  severityMismatch event severity = false
  <-> severity = EventSeverityInfo \/ Severity event = severity.
Proof.
  unfold severityMismatch.
  destruct (String.eqb_spec (Severity event) severity) as [He|He];
    destruct (String.eqb_spec severity EventSeverityInfo) as [Hi|Hi]; simpl;
    split; auto; try discriminate.
  intros [?|?]; contradiction.
Qed.

Lemma eventMatchesAlert_info_any_severity s event source sev' :
  eventMatchesAlert s (with_Severity event sev') source EventSeverityInfo
  = eventMatchesAlert s event source EventSeverityInfo.
Proof.
  unfold eventMatchesAlert, severityMismatch. simpl.
  rewrite !andb_false_r. reflexivity.
Qed.

Lemma eventMatchesAlert_info_rejected s event source t :
  eventMatchesAlert s event source EventSeverityInfo = (t, Returned false) ->
  Namespace (InvolvedObject event) <> src_Namespace source
  \/ Kind (InvolvedObject event) <> src_Kind source
  \/ (src_Name source <> "*" /\ src_Name source <> Name (InvolvedObject event))
  \/ (exists ml sel, src_MatchLabels source = Some ml
                     /\ LabelSelectorAsSelector ml = Ok sel
                     /\ Matches sel (fetchedLabels s event) = false).
Proof.
  unfold eventMatchesAlert, fetchedLabels, severityMismatch. simpl.
  destruct (String.eqb_spec (Namespace (InvolvedObject event)) (src_Namespace source)); simpl; auto.
  destruct (String.eqb_spec (Kind (InvolvedObject event)) (src_Kind source)); simpl; auto.
  rewrite andb_false_r.
  destruct (String.eqb_spec (src_Name source) "*"); simpl.
  - destruct (src_MatchLabels source) as [ml|]; [|discriminate].
    intros Hr. right; right; right. exists ml.
    destruct (Get_Labels _ _ _ _); simpl in Hr;
      destruct (LabelSelectorAsSelector ml) as [sel|]; simpl in Hr;
      try discriminate; exists sel; injection Hr as _ ->; auto.
  - destruct (String.eqb_spec (src_Name source) (Name (InvolvedObject event))); simpl; auto.
    destruct (src_MatchLabels source) as [ml|]; [|discriminate].
    intros Hr. right; right; right. exists ml.
    destruct (Get_Labels _ _ _ _); simpl in Hr;
      destruct (LabelSelectorAsSelector ml) as [sel|]; simpl in Hr;
      try discriminate; exists sel; injection Hr as _ ->; auto.
Qed.

Lemma eventMatchesAlert_same_severity s event source severity :
  Severity event = severity ->
  eventMatchesAlert s event source severity
  = eventMatchesAlert s event source EventSeverityInfo.
Proof.
  intros <-. unfold eventMatchesAlert, severityMismatch.
  rewrite String.eqb_refl. simpl. rewrite andb_false_r. reflexivity.
Qed.

Lemma eventMatchesAlert_other_severity s event source severity :
  severity <> EventSeverityInfo ->
  Severity event <> severity ->
  eventMatchesAlert s event source severity = ret false.
Proof.
  intros Hi He. unfold eventMatchesAlert, severityMismatch.
  apply String.eqb_neq in Hi, He. rewrite Hi, He. simpl.
  destruct (_ || _); reflexivity.
Qed.

Lemma eventMatchesAlertSources_loop_info s event alert sources sev' :
  EventSeverity (alert_Spec alert) = EventSeverityInfo ->
  eventMatchesAlertSources_loop s (with_Severity event sev') alert sources
  = eventMatchesAlertSources_loop s event alert sources.
Proof.
  intros Hinfo. induction sources as [|src rest IH]; simpl; [reflexivity|].
  rewrite Hinfo, IH. now rewrite !eventMatchesAlert_info_any_severity.
Qed.

(** C3. With the alert severity "info" the severity test of
    eventMatchesAlert turns no event down: the outcome is the same for
    every event severity, for one source and for all the sources of an
    alert, and an event that is not matched differs in namespace or kind,
    or has another name than a non-wildcard source, or fails the
    matchLabels selection. For any other alert severity the test passes
    exactly when the event's Severity equals it: then the outcome is the
    one the other criteria give, otherwise the event is not matched. *)
Theorem eventMatchesAlert_severity (s : EventServer) (event : Event)
    (source : CrossNamespaceObjectReference) (severity : string) :
  severityMismatch event EventSeverityInfo = false
  /\ (forall sev',
        eventMatchesAlert s (with_Severity event sev') source EventSeverityInfo
        = eventMatchesAlert s event source EventSeverityInfo)
  /\ (forall alert sev',
        EventSeverity (alert_Spec alert) = EventSeverityInfo ->
        eventMatchesAlertSources s (with_Severity event sev') alert
        = eventMatchesAlertSources s event alert)
  /\ (forall t,
        eventMatchesAlert s event source EventSeverityInfo = (t, Returned false) ->
        Namespace (InvolvedObject event) <> src_Namespace source
        \/ Kind (InvolvedObject event) <> src_Kind source
        \/ (src_Name source <> "*" /\ src_Name source <> Name (InvolvedObject event))
        \/ (exists ml sel, src_MatchLabels source = Some ml
                           /\ LabelSelectorAsSelector ml = Ok sel
                           /\ Matches sel (fetchedLabels s event) = false))
  /\ (severity <> EventSeverityInfo ->
        (severityMismatch event severity = false <-> Severity event = severity)
        /\ (Severity event = severity ->
              eventMatchesAlert s event source severity
              = eventMatchesAlert s event source EventSeverityInfo)
        /\ (Severity event <> severity ->
              eventMatchesAlert s event source severity = ret false)).
Proof.
  split; [apply severityMismatch_false; auto|].
  split; [intros; apply eventMatchesAlert_info_any_severity|].
  split; [intros; now apply eventMatchesAlertSources_loop_info|].
  split; [apply eventMatchesAlert_info_rejected|].
  intros Hi. split; [|split].
  - rewrite severityMismatch_false. tauto.
  - apply eventMatchesAlert_same_severity.
  - apply eventMatchesAlert_other_severity; auto.
Qed.

(** *** The match set *)

(** Every matchLabels of the alerts' sources builds a selector. *)
Definition selectorsBuild (alerts : list Alert) : Prop :=
  forall a src ml,
    a ∈ alerts -> src ∈ EventSources (alert_Spec a) ->
    src_MatchLabels src = Some ml ->
    exists sel, LabelSelectorAsSelector ml = Ok sel.

Lemma eventMatchesAlert_returns s event source severity :
  (forall ml, src_MatchLabels source = Some ml ->
              exists sel, LabelSelectorAsSelector ml = Ok sel) ->
  exists t b, eventMatchesAlert s event source severity = (t, Returned b).
Proof.
  intros Hsel. unfold eventMatchesAlert.
  destruct (_ || _); [unfold ret; eauto|].
  destruct (severityMismatch _ _); [unfold ret; eauto|].
  destruct (_ && _); [unfold ret; eauto|].
  destruct (src_MatchLabels source) as [ml|]; [|unfold ret; eauto].
  destruct (Hsel ml eq_refl) as [sel ->].
  destruct (Get_Labels _ _ _ _); simpl; eauto.
Qed.

Lemma eventMatchesAlertSources_loop_returns s event alert sources :
  (forall src ml, src ∈ sources -> src_MatchLabels src = Some ml ->
                  exists sel, LabelSelectorAsSelector ml = Ok sel) ->
  exists t b, eventMatchesAlertSources_loop s event alert sources = (t, Returned b).
Proof.
  induction sources as [|src rest IH]; intros Hsel; simpl.
  - unfold ret; eauto.
  - match goal with |- context [eventMatchesAlert s event ?x ?y] =>
      destruct (eventMatchesAlert_returns s event x y) as (t1 & b1 & ->) end.
    + intros ml Hml. apply (Hsel src ml); [left|].
      destruct (String.eqb _ _); auto.
    + simpl. destruct b1.
      * simpl. eauto.
      * destruct IH as (t2 & b2 & ->); [|simpl; eauto].
        intros src' ml Hin. apply Hsel. right; auto.
Qed.

Lemma filterAlertsForEvent_loop_returns s alerts event acc :
  selectorsBuild alerts ->
  exists t results, filterAlertsForEvent_loop s alerts event acc = (t, Returned results).
Proof.
  revert acc. induction alerts as [|a rest IH]; intros acc Hsel; simpl.
  - unfold ret; eauto.
  - assert (Hrest : selectorsBuild rest).
    { intros a' src ml Ha'. apply Hsel. right; auto. }
    destruct (alert_Suspend (alert_Spec a)); [apply IH; auto|].
    unfold eventMatchesAlertSources.
    destruct (eventMatchesAlertSources_loop_returns s event a (EventSources (alert_Spec a)))
      as (t1 & b1 & ->).
    { intros src ml Hin. apply (Hsel a); auto. left. }
    simpl. destruct b1; simpl.
    + destruct (messageIsExcluded_returns (Message event) (ExclusionList (alert_Spec a)))
        as (t2 & b2 & ->).
      simpl. destruct b2.
      * destruct (IH acc Hrest) as (t3 & r3 & ->). eauto.
      * destruct (IH (acc ++ [a]) Hrest) as (t3 & r3 & ->). eauto.
    + destruct (IH acc Hrest) as (t3 & r3 & ->). eauto.
Qed.

Lemma filterAlertsForEvent_loop_kept s alerts event acc t results :
  filterAlertsForEvent_loop s alerts event acc = (t, Returned results) ->
  exists kept, results = acc ++ kept
               /\ kept `sublist_of` alerts
               /\ Forall (fun a => alert_Suspend (alert_Spec a) = false) kept.
Proof.
  revert acc t. induction alerts as [|a rest IH]; intros acc t; simpl.
  - intros [= <- <-]. exists []. rewrite app_nil_r. repeat constructor.
  - destruct (alert_Suspend (alert_Spec a)) eqn:Hs.
    { intros Hr. destruct (IH _ _ Hr) as (kept & -> & Hsub & Hall).
      exists kept. repeat split; auto. constructor; auto. }
    intros Hr. apply bind_returned in Hr as (t1 & matched & t2 & _ & Hr & _).
    destruct matched; simpl in Hr.
    + apply bind_returned in Hr as (t3 & excluded & t4 & _ & Hr & _).
      destruct excluded.
      * destruct (IH _ _ Hr) as (kept & -> & Hsub & Hall).
        exists kept. repeat split; auto. constructor; auto.
      * destruct (IH _ _ Hr) as (kept & -> & Hsub & Hall).
        exists (a :: kept). rewrite <- app_assoc.
        split; [reflexivity|]. split; constructor; auto.
    + destruct (IH _ _ Hr) as (kept & -> & Hsub & Hall).
      exists kept. repeat split; auto. constructor; auto.
Qed.

(** C1. The match set filterAlertsForEvent returns never contains an
    alert whose Spec.Suspend is true: it is a sub-list of the alerts
    given, in their order, and holds unsuspended alerts only. The call
    does return a match set whenever the matchLabels of the alerts'
    sources build selectors. *)
Theorem filterAlertsForEvent_no_suspended (s : EventServer)
    (alerts : list Alert) (event : Event) :
  (forall t results,
      filterAlertsForEvent s alerts event = (t, Returned results) ->
      results `sublist_of` alerts
      /\ forall a, a ∈ results -> alert_Suspend (alert_Spec a) = false)
  /\ (selectorsBuild alerts ->
      exists t results, filterAlertsForEvent s alerts event = (t, Returned results)).
Proof.
  split.
  - intros t results Hr.
    apply filterAlertsForEvent_loop_kept in Hr as (kept & -> & Hsub & Hall).
    simpl. split; auto. intros a Ha.
    rewrite Forall_forall in Hall. auto.
  - apply filterAlertsForEvent_loop_returns.
Qed.

End Matcher.

(** ** Properties of the webhook path *)

Section WebhookPath.

Lemma bytes_app (a b : string) : bytes (a +:+ b) = bytes a ++ bytes b.
Proof. induction a as [|c a IH]; simpl; [reflexivity|]. now rewrite IH. Qed.

Definition is_byte (b : Z) : Prop := (0 <= b < 256)%Z.

(** The value of a lowercase hex digit. *)
Definition unhex (c : ascii) : Z :=
  let n := Z.of_N (N_of_ascii c) in
  if (n <? 58)%Z then (n - 48)%Z else (n - 87)%Z.

(** A test that holds on 0..15 holds of every hex digit value. *)
Lemma below_16 (P : Z -> bool) :
  forallb P (List.map Z.of_nat (seq 0 16)) = true ->
  forall n, (0 <= n < 16)%Z -> P n = true.
Proof.
  intros Hall n Hn. rewrite forallb_forall in Hall. apply Hall.
  rewrite <- (Z2Nat.id n) by lia. apply List.in_map. apply List.in_seq. lia.
Qed.

Lemma unhex_hexdigit (n : Z) : (0 <= n < 16)%Z -> unhex (hexdigit n) = n.
Proof.
  intros Hn. apply Z.eqb_eq.
  apply (below_16 (fun n => unhex (hexdigit n) =? n)%Z); [reflexivity | assumption].
Qed.

Lemma nibbles (b : Z) :
  is_byte b ->
  (0 <= Z.shiftr b 4 < 16)%Z /\ (0 <= Z.land b 15 < 16)%Z
  /\ b = (16 * Z.shiftr b 4 + Z.land b 15)%Z.
Proof.
  intros [Hlo Hhi].
  rewrite Z.shiftr_div_pow2 by lia.
  change 15%Z with (Z.ones 4). rewrite Z.land_ones by lia.
  change (2 ^ 4)%Z with 16%Z.
  pose proof (Z.div_mod b 16 ltac:(lia)).
  pose proof (Z.mod_pos_bound b 16 ltac:(lia)).
  assert (0 <= b / 16 < 16)%Z.
  { split; [apply Z.div_pos; lia | apply Z.div_lt_upper_bound; lia]. }
  lia.
Qed.

Lemma hex_inj (bs1 bs2 : list Z) :
  Forall is_byte bs1 -> Forall is_byte bs2 -> hex bs1 = hex bs2 -> bs1 = bs2.
Proof.
  intros H1. revert bs2. induction H1 as [|b1 bs1 Hb1 _ IH];
    intros bs2 H2 Heq; destruct H2 as [|b2 bs2 Hb2 H2]; simpl in Heq;
    try discriminate; [reflexivity|].
  injection Heq as Hhi Hlo Hrest.
  destruct (nibbles b1 Hb1) as (Hh1 & Hl1 & E1).
  destruct (nibbles b2 Hb2) as (Hh2 & Hl2 & E2).
  apply (f_equal unhex) in Hhi, Hlo.
  rewrite !unhex_hexdigit in Hhi, Hlo by assumption.
  f_equal; [lia | apply IH; assumption].
Qed.

Lemma be_bytes_is_byte n x : Forall is_byte (be_bytes n x).
Proof.
  induction n as [|n IH]; simpl; constructor; [|assumption].
  change 255%Z with (Z.ones 8). rewrite Z.land_ones by lia.
  apply Z.mod_pos_bound. lia.
Qed.

Lemma Sum256_is_byte msg : Forall is_byte (Sum256 msg).
Proof.
  unfold Sum256. generalize (blocks (length (pad msg) / 64) H256 (pad msg)).
  intros ws. induction ws as [|w ws IH]; cbn [flat_map]; [constructor|].
  apply Forall_app. split; [apply be_bytes_is_byte | assumption].
Qed.

Lemma blocks_length n h bs : length h = 8 -> length (blocks n h bs) = 8.
Proof.
  revert h bs. induction n as [|n IH]; intros h bs Hh; simpl; [assumption|].
  apply IH. reflexivity.
Qed.

Lemma Sum256_length msg : length (Sum256 msg) = 32.
Proof.
  unfold Sum256.
  pose proof (blocks_length (length (pad msg) / 64) H256 (pad msg) eq_refl) as Hl.
  destruct (blocks _ _ _) as [|a [|b [|c [|d [|e [|f [|g [|h [|]]]]]]]]];
    simpl in Hl; try discriminate. reflexivity.
Qed.

Lemma hex_length bs : String.length (hex bs) = 2 * length bs.
Proof. induction bs as [|b bs IH]; simpl; [reflexivity|]. rewrite IH. lia. Qed.

Definition is_lower_hex (c : ascii) : bool :=
  let n := N_of_ascii c in
  ((48 <=? n) && (n <=? 57) || (97 <=? n) && (n <=? 102))%N.

Fixpoint all_chars (p : ascii -> bool) (s : string) : bool :=
  match s with
  | EmptyString => true
  | String c s' => p c && all_chars p s'
  end.

Lemma hexdigit_lower (n : Z) : (0 <= n < 16)%Z -> is_lower_hex (hexdigit n) = true.
Proof. apply (below_16 (fun n => is_lower_hex (hexdigit n))). reflexivity. Qed.

Lemma hex_lower bs : Forall is_byte bs -> all_chars is_lower_hex (hex bs) = true.
Proof.
  induction 1 as [|b bs Hb _ IH]; simpl; [reflexivity|].
  destruct (nibbles b Hb) as (Hh & Hl & _).
  rewrite !hexdigit_lower by assumption. assumption.
Qed.

(** The digest the path is derived from, with the concatenation written
    byte-wise as the specification has it. *)
Definition pathDigest (token name namespace : string) : list Z :=
  Sum256 (bytes token ++ bytes name ++ bytes namespace).

Lemma GetWebhookPath_digest r token :
  GetWebhookPath r token
  = "/hook/" +:+ hex (pathDigest token (receiver_Name r) (receiver_Namespace r)).
Proof.
  unfold GetWebhookPath, pathDigest, GetName, GetNamespace.
  now rewrite !bytes_app.
Qed.

(** C4, as far as it holds. GetWebhookPath equals "/hook/" followed by
    the 64 lowercase hex digits of sha256 of the byte-wise concatenation
    token, name, namespace. It depends on the three only through that
    concatenation: inputs with the same concatenation have the same path,
    and two paths are equal exactly when the two digests are. *)
Theorem GetWebhookPath_spec (r1 r2 : Receiver) (token1 token2 : string) :
  (exists digits,
      GetWebhookPath r1 token1 = "/hook/" +:+ digits
      /\ digits = hex (pathDigest token1 (receiver_Name r1) (receiver_Namespace r1))
      /\ String.length digits = 64
      /\ all_chars is_lower_hex digits = true)
  /\ (token1 +:+ receiver_Name r1 +:+ receiver_Namespace r1
      = token2 +:+ receiver_Name r2 +:+ receiver_Namespace r2 ->
      GetWebhookPath r1 token1 = GetWebhookPath r2 token2)
  /\ (GetWebhookPath r1 token1 = GetWebhookPath r2 token2
      <-> pathDigest token1 (receiver_Name r1) (receiver_Namespace r1)
          = pathDigest token2 (receiver_Name r2) (receiver_Namespace r2)).
Proof.
  split; [|split].
  - eexists. split; [apply GetWebhookPath_digest|]. split; [reflexivity|].
    split.
    + unfold pathDigest. rewrite hex_length, Sum256_length. reflexivity.
    + apply hex_lower, Sum256_is_byte.
  - intros Heq. unfold GetWebhookPath, GetName, GetNamespace. now rewrite Heq.
  - rewrite !GetWebhookPath_digest. split.
    + intros Heq. simpl in Heq. injection Heq as Heq.
      apply hex_inj; [apply Sum256_is_byte | apply Sum256_is_byte | exact Heq].
    + intros ->. reflexivity.
Qed.

(** The specification's reading of C4: inputs that differ in a component
    have different paths. *)
Definition pathsSeparate : Prop :=
  forall r1 r2 token1 token2,
    (token1, receiver_Name r1, receiver_Namespace r1)
    <> (token2, receiver_Name r2, receiver_Namespace r2) ->
    GetWebhookPath r1 token1 <> GetWebhookPath r2 token2.

(** Token "ab" with name "c" and token "a" with name "bc" give one
    concatenation, "abcn1", and so one path. *)
Lemma GetWebhookPath_collision :
  ("ab", "c", "n1") <> ("a", "bc", "n1")
  /\ GetWebhookPath {| receiver_Name := "c"; receiver_Namespace := "n1" |} "ab"
     = GetWebhookPath {| receiver_Name := "bc"; receiver_Namespace := "n1" |} "a"
  /\ ~ pathsSeparate.
Proof.
  split; [discriminate|]. split; [reflexivity|].
  intros Hsep.
  apply (Hsep {| receiver_Name := "c"; receiver_Namespace := "n1" |}
              {| receiver_Name := "bc"; receiver_Namespace := "n1" |} "ab" "a");
    [discriminate | reflexivity].
Qed.

(** Scenario S5: receiver r1 in n1 with token t. *)
Example GetWebhookPath_S5 :
  GetWebhookPath {| receiver_Name := "r1"; receiver_Namespace := "n1" |} "t"
  = "/hook/6db6f68010ae2098bcae0a33a4e19784f9b43aec06b9cece1e63790c73bd1849".
Proof. vm_compute. reflexivity. Qed.

End WebhookPath.

(** ** Properties of cleanupMetadata *)

Section Cleanup.
Context `{Strings} `{MapRange}.

Lemma HasPrefix_app (p rest : string) : HasPrefix (p +:+ rest) p = true.
Proof. induction p as [|c p IH]; simpl; [reflexivity|]. now rewrite Ascii.eqb_refl. Qed.

Lemma dropPrefix_Some (s p rest : string) :
  dropPrefix s p = Some rest <-> s = p +:+ rest.
Proof.
  revert s. induction p as [|c p IH]; intros s; simpl.
  - split; [intros [= ->]; reflexivity | intros ->; reflexivity].
  - destruct s as [|d s]; [split; discriminate|].
    destruct (Ascii.eqb_spec c d) as [->|Hne].
    + rewrite IH. split; [intros ->; reflexivity | intros [= ->]; reflexivity].
    + split; [discriminate | intros [= -> _]; contradiction].
Qed.

Lemma dropPrefix_HasPrefix (s p : string) :
  HasPrefix s p = match dropPrefix s p with Some _ => true | None => false end.
Proof.
  revert s. induction p as [|c p IH]; intros s; simpl; [reflexivity|].
  destruct s as [|d s]; [reflexivity|].
  destruct (Ascii.eqb c d); [apply IH | reflexivity].
Qed.

Lemma HasPrefix_true (s p : string) :
  HasPrefix s p = true <-> exists rest, s = p +:+ rest.
Proof.
  rewrite dropPrefix_HasPrefix. split.
  - destruct (dropPrefix s p) as [rest|] eqn:E; [|discriminate].
    intros _. exists rest. now apply dropPrefix_Some.
  - intros [rest Hrest]. apply dropPrefix_Some in Hrest. now rewrite Hrest.
Qed.

Lemma TrimPrefix_app (p rest : string) : TrimPrefix (p +:+ rest) p = rest.
Proof.
  unfold TrimPrefix.
  now rewrite (proj2 (dropPrefix_Some (p +:+ rest) p rest) eq_refl).
Qed.

Lemma TrimPrefix_no_prefix (s p : string) :
  HasPrefix s p = false -> TrimPrefix s p = s.
Proof.
  rewrite dropPrefix_HasPrefix. unfold TrimPrefix.
  destruct (dropPrefix s p); [discriminate | reflexivity].
Qed.

Lemma append_cons (x : ascii) (a b : string) : String x a +:+ b = String x (a +:+ b).
Proof. reflexivity. Qed.

Lemma append_assoc (a b c : string) : (a +:+ b) +:+ c = a +:+ (b +:+ c).
Proof.
  induction a as [|x a IH]; [reflexivity|].
  rewrite !append_cons. f_equal. exact IH.
Qed.

Lemma length_append (a b : string) :
  String.length (a +:+ b) = String.length a + String.length b.
Proof.
  induction a as [|x a IH]; [reflexivity|].
  rewrite append_cons. simpl. f_equal. exact IH.
Qed.

(** The test of the loop: the key begins with the group and is not on
    the exclude list. *)
Definition keeps (group key : string) : bool :=
  HasPrefix key group && negb (inList [group +:+ "/" +:+ MetaChecksumKey] key).

(** The key an entry is stored under. *)
Definition newKey (group key : string) : string :=
  TrimPrefix key (group +:+ "/").

Definition eventGroup (event : Event) : string :=
  Group (GetGroupVersionKind (InvolvedObject event)).

(** The entries of an event's metadata; a nil map has none. *)
Definition entries (event : Event) : gmap string string :=
  default ∅ (Metadata event).

(** The loop of cleanupMetadata over the entries [l], from [acc]. *)
Definition cleaned (group : string) (l : list (string * string))
    (acc : gmap string string) : gmap string string :=
  fold_left (cleanupMetadata_step group [group +:+ "/" +:+ MetaChecksumKey]) l acc.

Lemma cleaned_cons group k v l acc :
  cleaned group ((k, v) :: l) acc
  = cleaned group l (if keeps group k then <[newKey group k := v]> acc else acc).
Proof. reflexivity. Qed.

Lemma cleaned_lookup group l acc k' v :
  cleaned group l acc !! k' = Some v ->
  acc !! k' = Some v
  \/ exists k, (k, v) ∈ l /\ keeps group k = true /\ newKey group k = k'.
Proof.
  revert acc. induction l as [|[k w] l IH]; intros acc; [left; assumption|].
  rewrite cleaned_cons. intros Hl. apply IH in Hl as [Hacc|(k0 & Hin & Hk & Hn)].
  - destruct (keeps group k) eqn:Hk; [|left; assumption].
    destruct (decide (newKey group k = k')) as [<-|Hne].
    + rewrite lookup_insert_eq in Hacc. injection Hacc as ->.
      right. exists k. split; [left|]; auto.
    + rewrite lookup_insert_ne in Hacc by assumption. left; assumption.
  - right. exists k0. split; [right|]; auto.
Qed.

Lemma cleaned_preserved group l acc k' v :
  acc !! k' = Some v ->
  (forall k w, (k, w) ∈ l -> keeps group k = true -> newKey group k = k' -> w = v) ->
  cleaned group l acc !! k' = Some v.
Proof.
  revert acc. induction l as [|[k w] l IH]; intros acc Hacc Hun; [assumption|].
  rewrite cleaned_cons. apply IH.
  - destruct (keeps group k) eqn:Hk; [|assumption].
    destruct (decide (newKey group k = k')) as [<-|Hne].
    + rewrite lookup_insert_eq. f_equal. apply (Hun k w); auto. left.
    + now rewrite lookup_insert_ne.
  - intros k0 w0 Hin. apply Hun. right; assumption.
Qed.

Lemma cleaned_kept group l acc k v :
  (k, v) ∈ l -> keeps group k = true ->
  (forall k2 v2, (k2, v2) ∈ l -> keeps group k2 = true ->
                 newKey group k2 = newKey group k -> v2 = v) ->
  cleaned group l acc !! newKey group k = Some v.
Proof.
  revert acc. induction l as [|[k0 w0] l IH]; intros acc Hin Hk Hun;
    [inversion Hin|].
  rewrite cleaned_cons.
  apply elem_of_cons in Hin as [[= <- <-]|Hin].
  - rewrite Hk. apply cleaned_preserved; [apply lookup_insert_eq|].
    intros k2 v2 Hin2. apply Hun. right; assumption.
  - apply IH; auto. intros k2 v2 Hin2. apply Hun. right; assumption.
Qed.

Lemma cleaned_is_Some group l acc k v :
  (k, v) ∈ l -> keeps group k = true ->
  is_Some (cleaned group l acc !! newKey group k).
Proof.
  revert acc. induction l as [|[k0 w0] l IH]; intros acc Hin Hk; [inversion Hin|].
  rewrite cleaned_cons.
  apply elem_of_cons in Hin as [[= <- <-]|Hin]; [|apply IH; auto].
  rewrite Hk. clear IH.
  assert (Hs : is_Some (<[newKey group k := v]> acc !! newKey group k))
    by (rewrite lookup_insert_eq; eauto).
  revert Hs. generalize (<[newKey group k := v]> acc). clear acc.
  induction l as [|[k1 w1] l IH]; intros acc Hs; [assumption|].
  rewrite cleaned_cons. apply IH.
  destruct (keeps group k1); [|assumption].
  destruct (decide (newKey group k1 = newKey group k)) as [->|Hne].
  - rewrite lookup_insert_eq; eauto.
  - now rewrite lookup_insert_ne.
Qed.

Lemma elem_of_range (m : gmap string string) k v :
  (k, v) ∈ range m <-> m !! k = Some v.
Proof. rewrite (range_perm m). apply elem_of_map_to_list. Qed.

(** What cleanupMetadata stores: the loop's result over the entries. *)
Lemma cleanupMetadata_Metadata event :
  Metadata (cleanupMetadata event)
  = Some (cleaned (eventGroup event) (range (entries event)) ∅).
Proof.
  unfold cleanupMetadata, entries, cleaned, eventGroup. simpl.
  destruct (Metadata event) as [md|]; simpl.
  - destruct (Nat.ltb_spec 0 (size md)) as [Hs|Hs]; [reflexivity|].
    assert (md = ∅) as -> by (apply map_size_empty_iff; lia).
    pose proof (range_perm (∅ : gmap string string)) as Hp.
    rewrite map_to_list_empty in Hp. apply Permutation_nil_r in Hp.
    now rewrite Hp.
  - pose proof (range_perm (∅ : gmap string string)) as Hp.
    rewrite map_to_list_empty in Hp. apply Permutation_nil_r in Hp.
    now rewrite Hp.
Qed.

Lemma keeps_true group k :
  keeps group k = true
  <-> HasPrefix k group = true
      /\ EqualFold (group +:+ "/" +:+ MetaChecksumKey) k = false.
Proof.
  unfold keeps. simpl. rewrite andb_true_iff, negb_true_iff.
  destruct (EqualFold _ k); tauto.
Qed.

Lemma newKey_stripped group rest : newKey group (group +:+ "/" +:+ rest) = rest.
Proof. unfold newKey. rewrite <- append_assoc. apply TrimPrefix_app. Qed.

Lemma newKey_unchanged group k :
  HasPrefix k (group +:+ "/") = false -> newKey group k = k.
Proof. apply TrimPrefix_no_prefix. Qed.

Lemma cleanupMetadata_with_Metadata event :
  cleanupMetadata event
  = with_Metadata event (Some (cleaned (eventGroup event) (range (entries event)) ∅)).
Proof.
  pose proof (cleanupMetadata_Metadata event) as Hm.
  unfold cleanupMetadata in *. simpl in Hm. unfold with_Metadata. now rewrite Hm.
Qed.

(** C5, as the code has it. cleanupMetadata replaces the event's
    Metadata, and nothing else, with a map [r] built from the entries
    whose key begins with the group G (with or without a following "/")
    and is not equal to "G/checksum" under strings.EqualFold. Every
    entry of [r] is such an entry stored under its new key; every such
    entry has its new key in [r], with its own value unless another kept
    key has the same new key. The new key is the key without a leading
    "G/", and the key itself when it does not begin with "G/". *)
Theorem cleanupMetadata_spec (event : Event) :
  exists r,
    cleanupMetadata event = with_Metadata event (Some r)
    /\ (forall k' v,
          r !! k' = Some v ->
          exists k, entries event !! k = Some v
                    /\ keeps (eventGroup event) k = true
                    /\ newKey (eventGroup event) k = k')
    /\ (forall k v,
          entries event !! k = Some v ->
          keeps (eventGroup event) k = true ->
          is_Some (r !! newKey (eventGroup event) k)
          /\ ((forall k2, is_Some (entries event !! k2) ->
                          keeps (eventGroup event) k2 = true ->
                          newKey (eventGroup event) k2 = newKey (eventGroup event) k ->
                          k2 = k) ->
              r !! newKey (eventGroup event) k = Some v))
    /\ (forall k,
          keeps (eventGroup event) k = true
          <-> HasPrefix k (eventGroup event) = true
              /\ EqualFold (eventGroup event +:+ "/" +:+ MetaChecksumKey) k = false)
    /\ (forall rest,
          newKey (eventGroup event) (eventGroup event +:+ "/" +:+ rest) = rest)
    /\ (forall k,
          HasPrefix k (eventGroup event +:+ "/") = false ->
          newKey (eventGroup event) k = k).
Proof.
  eexists. split; [apply cleanupMetadata_with_Metadata|].
  split; [|split; [|split; [|split]]].
  - intros k' v Hl. apply cleaned_lookup in Hl as [Hl|(k & Hin & Hk & Hn)].
    + rewrite lookup_empty in Hl. discriminate.
    + exists k. rewrite <- elem_of_range. auto.
  - intros k v Hk Hkeep. apply elem_of_range in Hk. split.
    + eapply cleaned_is_Some; eauto.
    + intros Hinj. apply cleaned_kept; auto.
      intros k2 v2 Hin2 Hkeep2 Hn. apply elem_of_range in Hin2.
      assert (k2 = k) as -> by (apply Hinj; eauto).
      apply elem_of_range in Hk. congruence.
  - apply keeps_true.
  - apply newKey_stripped.
  - apply newKey_unchanged.
Qed.

(** *** Applying cleanupMetadata twice *)

Lemma eventGroup_cleanupMetadata event :
  eventGroup (cleanupMetadata event) = eventGroup event.
Proof. now rewrite cleanupMetadata_with_Metadata. Qed.

Lemma entries_cleanupMetadata event :
  entries (cleanupMetadata event)
  = cleaned (eventGroup event) (range (entries event)) ∅.
Proof. unfold entries at 1. now rewrite cleanupMetadata_Metadata. Qed.

Lemma cleanupMetadata_twice_Metadata event :
  cleanupMetadata (cleanupMetadata event)
  = with_Metadata event
      (Some (cleaned (eventGroup event)
               (range (entries (cleanupMetadata event))) ∅)).
Proof.
  rewrite (cleanupMetadata_with_Metadata (cleanupMetadata event)).
  rewrite eventGroup_cleanupMetadata.
  now rewrite (cleanupMetadata_with_Metadata event) at 1.
Qed.

(** The size of an entry's key, and of a map's keys. *)
Definition cost (kv : string * string) : nat := S (String.length (fst kv)).

Definition keysWeight (m : gmap string string) : nat :=
  sum_list_with cost (map_to_list m).

(** What an entry adds to the cleaned map at most. *)
Definition keptCost (group : string) (kv : string * string) : nat :=
  if keeps group (fst kv) then S (String.length (newKey group (fst kv))) else 0.

Lemma keysWeight_insert_le m k v :
  keysWeight (<[k := v]> m) <= keysWeight m + S (String.length k).
Proof.
  unfold keysWeight. destruct (m !! k) as [w|] eqn:E.
  - rewrite <- (insert_delete_eq m k v).
    rewrite map_to_list_insert by apply lookup_delete_eq.
    rewrite <- (map_to_list_delete m k w E). simpl. unfold cost. simpl. lia.
  - rewrite map_to_list_insert by assumption. simpl. unfold cost. simpl. lia.
Qed.

Lemma keysWeight_cleaned group l acc :
  keysWeight (cleaned group l acc) <= keysWeight acc + sum_list_with (keptCost group) l.
Proof.
  revert acc. induction l as [|[k v] l IH]; intros acc; [simpl; lia|].
  rewrite cleaned_cons. etransitivity; [apply IH|]. simpl.
  unfold keptCost at 2. simpl. destruct (keeps group k); [|lia].
  pose proof (keysWeight_insert_le acc (newKey group k) v). lia.
Qed.

Lemma newKey_length group k :
  String.length (newKey group k) <= String.length k
  /\ (HasPrefix k (group +:+ "/") = true ->
      String.length (newKey group k) < String.length k).
Proof.
  destruct (HasPrefix k (group +:+ "/")) eqn:Hp.
  - apply HasPrefix_true in Hp as [rest ->].
    rewrite append_assoc, newKey_stripped, <- append_assoc.
    rewrite !length_append. simpl. lia.
  - rewrite newKey_unchanged by assumption. split; [lia | discriminate].
Qed.

Lemma keptCost_le group kv : keptCost group kv <= cost kv.
Proof.
  unfold keptCost, cost. destruct (keeps group (fst kv)); [|lia].
  pose proof (proj1 (newKey_length group (fst kv))). lia.
Qed.

Lemma keptCost_eq group kv :
  keptCost group kv = cost kv ->
  keeps group (fst kv) = true /\ HasPrefix (fst kv) (group +:+ "/") = false.
Proof.
  unfold keptCost, cost. destruct (keeps group (fst kv)); [|discriminate].
  intros Heq. split; [reflexivity|].
  destruct (HasPrefix (fst kv) (group +:+ "/")) eqn:Hp; [|reflexivity].
  pose proof (proj2 (newKey_length group (fst kv)) Hp). lia.
Qed.

Lemma sum_list_with_le {A} (f g : A -> nat) (l : list A) :
  (forall x, f x <= g x) -> sum_list_with f l <= sum_list_with g l.
Proof.
  intros Hle. induction l as [|x l IH]; simpl; [lia|]. specialize (Hle x). lia.
Qed.

Lemma sum_list_with_tight {A} (f g : A -> nat) (l : list A) :
  (forall x, f x <= g x) ->
  sum_list_with g l <= sum_list_with f l ->
  forall x, x ∈ l -> f x = g x.
Proof.
  intros Hle. induction l as [|y l IH]; simpl; intros Hs x Hx; [inversion Hx|].
  pose proof (Hle y). pose proof (sum_list_with_le f g l Hle).
  apply elem_of_cons in Hx as [->|Hx]; [lia|]. apply IH; [lia | assumption].
Qed.

(** The loop gives back [r] exactly when it keeps every key of [r] as
    it is. *)
Lemma cleaned_fixed group (r : gmap string string) :
  cleaned group (range r) ∅ = r
  <-> forall k, is_Some (r !! k) ->
                keeps group k = true /\ HasPrefix k (group +:+ "/") = false.
Proof.
  split.
  - intros Hfix k [v Hk].
    pose proof (keysWeight_cleaned group (range r) ∅) as Hw.
    rewrite Hfix in Hw. unfold keysWeight in Hw at 2.
    rewrite map_to_list_empty in Hw. simpl in Hw.
    assert (Hr : keysWeight r = sum_list_with cost (range r)).
    { unfold keysWeight. now rewrite (range_perm r). }
    rewrite Hr in Hw.
    apply (keptCost_eq group (k, v)).
    apply (sum_list_with_tight (keptCost group) cost (range r));
      [apply keptCost_le | assumption | now apply elem_of_range].
  - intros Hall. apply map_eq. intros k'.
    destruct (r !! k') as [v|] eqn:Hk.
    + destruct (Hall k' (ex_intro _ v Hk)) as [Hkeep Hnp].
      rewrite <- (newKey_unchanged group k' Hnp) at 1.
      apply cleaned_kept; [now apply elem_of_range | assumption |].
      intros k2 v2 Hin2 _ Hn. apply elem_of_range in Hin2.
      destruct (Hall k2 (ex_intro _ v2 Hin2)) as [_ Hnp2].
      rewrite !newKey_unchanged in Hn by assumption. congruence.
    + destruct (cleaned group (range r) ∅ !! k') as [v|] eqn:Hc; [|reflexivity].
      apply cleaned_lookup in Hc as [Hc|(k & Hin & _ & Hn)].
      * rewrite lookup_empty in Hc. discriminate.
      * apply elem_of_range in Hin.
        destruct (Hall k (ex_intro _ v Hin)) as [_ Hnp].
        rewrite newKey_unchanged in Hn by assumption. congruence.
Qed.

Lemma cleaned_none_kept group l :
  (forall k v, (k, v) ∈ l -> HasPrefix k group = false) ->
  cleaned group l ∅ = ∅.
Proof.
  intros Hno. apply map_eq. intros k'. rewrite lookup_empty.
  destruct (cleaned group l ∅ !! k') as [v|] eqn:Hc; [|reflexivity].
  apply cleaned_lookup in Hc as [Hc|(k & Hin & Hkeep & _)].
  - rewrite lookup_empty in Hc. discriminate.
  - apply keeps_true in Hkeep as [Hp _]. rewrite (Hno k v Hin) in Hp. discriminate.
Qed.

Lemma with_Metadata_inj event (m1 m2 : gmap string string) :
  with_Metadata event (Some m1) = with_Metadata event (Some m2) <-> m1 = m2.
Proof. split; [intros [= ->]; reflexivity | intros ->; reflexivity]. Qed.

(** C6, as the code has it. A second application of cleanupMetadata
    runs the same loop over the stripped keys. It leaves the first
    result unchanged exactly when every key of that result again begins
    with the group, is not excluded and does not begin with "G/"; when no
    key of the first result begins with the group, it leaves an empty
    map. One leading "G/" is stripped and no more: a key of the result
    begins with "G/" only if it comes from a key that began with
    "G/G/". *)
Theorem cleanupMetadata_twice (event : Event) :
  (cleanupMetadata (cleanupMetadata event) = cleanupMetadata event
   <-> forall k, is_Some (entries (cleanupMetadata event) !! k) ->
                 keeps (eventGroup event) k = true
                 /\ HasPrefix k (eventGroup event +:+ "/") = false)
  /\ ((forall k, is_Some (entries (cleanupMetadata event) !! k) ->
                 HasPrefix k (eventGroup event) = false) ->
      cleanupMetadata (cleanupMetadata event) = with_Metadata event (Some ∅))
  /\ (forall k',
        is_Some (entries (cleanupMetadata event) !! k') ->
        HasPrefix k' (eventGroup event +:+ "/") = true ->
        exists k, is_Some (entries event !! k)
                  /\ k = eventGroup event +:+ "/" +:+ k'
                  /\ HasPrefix k (eventGroup event +:+ "/" +:+ eventGroup event +:+ "/") = true).
Proof.
  split; [|split].
  - rewrite cleanupMetadata_twice_Metadata.
    rewrite (cleanupMetadata_with_Metadata event) at 2.
    rewrite with_Metadata_inj. rewrite <- entries_cleanupMetadata.
    apply cleaned_fixed.
  - intros Hno. rewrite cleanupMetadata_twice_Metadata. apply with_Metadata_inj.
    apply cleaned_none_kept. intros k v Hin. apply Hno.
    apply elem_of_range in Hin. eauto.
  - intros k' [v Hk'] Hp. rewrite entries_cleanupMetadata in Hk'.
    apply cleaned_lookup in Hk' as [Hk'|(k & Hin & _ & Hn)].
    { rewrite lookup_empty in Hk'. discriminate. }
    apply elem_of_range in Hin.
    destruct (HasPrefix k (eventGroup event +:+ "/")) eqn:Hpk.
    + apply HasPrefix_true in Hpk as [rest ->].
      rewrite append_assoc, newKey_stripped in Hn. subst rest.
      exists ((eventGroup event +:+ "/") +:+ k'). split; [eauto|].
      split; [apply append_assoc|].
      apply HasPrefix_true in Hp as [rest ->].
      apply HasPrefix_true. exists rest. now rewrite !append_assoc.
    + rewrite newKey_unchanged in Hn by assumption. congruence.
Qed.

(** The metadata the specification describes: the entries whose key
    starts with "G/" and is not "G/checksum", under the key without
    "G/". *)
Definition spec_entry (group : string) (kv : string * string) : option (string * string) :=
  if HasPrefix (fst kv) (group +:+ "/")
     && negb (String.eqb (fst kv) (group +:+ "/" +:+ MetaChecksumKey))
  then Some (TrimPrefix (fst kv) (group +:+ "/"), snd kv)
  else None.

Definition spec_cleanupMetadata (event : Event) : Event :=
  with_Metadata event
    (Some (list_to_map (omap (spec_entry (eventGroup event))
                             (map_to_list (entries event))))).

Lemma HasPrefix_trans (s p q : string) :
  HasPrefix s (p +:+ q) = true -> HasPrefix s p = true.
Proof.
  rewrite !HasPrefix_true. intros [rest ->]. exists (q +:+ rest). apply append_assoc.
Qed.

Lemma TrimPrefix_restore (s p : string) :
  HasPrefix s p = true -> s = p +:+ TrimPrefix s p.
Proof.
  intros Hp. apply HasPrefix_true in Hp as [rest ->]. now rewrite TrimPrefix_app.
Qed.

Lemma spec_entry_Some group k v k' v' :
  spec_entry group (k, v) = Some (k', v')
  <-> HasPrefix k (group +:+ "/") = true
      /\ String.eqb k (group +:+ "/" +:+ MetaChecksumKey) = false
      /\ k' = newKey group k /\ v' = v.
Proof.
  unfold spec_entry, newKey. simpl.
  destruct (HasPrefix k (group +:+ "/")); simpl;
    destruct (String.eqb k (group +:+ "/" +:+ MetaChecksumKey)); simpl;
    split; try discriminate; try (intros (? & ? & _); discriminate).
  - intros [= <- <-]. auto.
  - intros (_ & _ & -> & ->). reflexivity.
Qed.

(** On events whose keys, when they begin with the group, begin with
    "G/", and fold to "G/checksum" only when they equal it, the code
    computes what the specification describes. *)
Lemma cleanupMetadata_agrees_with_spec (event : Event) :
  (forall k, is_Some (entries event !! k) ->
             HasPrefix k (eventGroup event) = true ->
             HasPrefix k (eventGroup event +:+ "/") = true) ->
  (forall k, is_Some (entries event !! k) ->
             EqualFold (eventGroup event +:+ "/" +:+ MetaChecksumKey) k
             = String.eqb k (eventGroup event +:+ "/" +:+ MetaChecksumKey)) ->
  cleanupMetadata event = spec_cleanupMetadata event.
Proof.
  intros Hslash Hfold. rewrite cleanupMetadata_with_Metadata.
  unfold spec_cleanupMetadata. apply with_Metadata_inj.
  set (G := eventGroup event) in *. set (m := entries event) in *.
  assert (Hkeeps : forall k v, m !! k = Some v ->
            (keeps G k = true
             <-> HasPrefix k (G +:+ "/") = true
                 /\ String.eqb k (G +:+ "/" +:+ MetaChecksumKey) = false)).
  { intros k v Hk. rewrite keeps_true, (Hfold k) by eauto. split.
    - intros [Hp He]. split; [apply Hslash; eauto | assumption].
    - intros [Hp He]. split; [eapply HasPrefix_trans; eauto | assumption]. }
  assert (Hinj : forall k1 v1 k2 v2,
            m !! k1 = Some v1 -> m !! k2 = Some v2 ->
            HasPrefix k1 (G +:+ "/") = true -> HasPrefix k2 (G +:+ "/") = true ->
            newKey G k1 = newKey G k2 -> v1 = v2).
  { intros k1 v1 k2 v2 H1 H2 Hp1 Hp2 Hn.
    apply TrimPrefix_restore in Hp1, Hp2. unfold newKey in Hn.
    rewrite Hn in Hp1. rewrite <- Hp2 in Hp1. congruence. }
  apply map_eq. intros k'. apply option_eq. intros v. split.
  - intros Hc. apply cleaned_lookup in Hc as [Hc|(k & Hin & Hk & Hn)].
    { rewrite lookup_empty in Hc. discriminate. }
    apply elem_of_range in Hin. apply (Hkeeps k v Hin) in Hk as [Hp He].
    apply elem_of_list_to_map_1'.
    + intros v' Hin'. apply list_elem_of_omap in Hin' as ([k2 v2] & Hin2 & Hs).
      apply elem_of_map_to_list in Hin2.
      apply spec_entry_Some in Hs as (Hp2 & _ & Hn2 & ->).
      eapply Hinj; eauto. congruence.
    + apply list_elem_of_omap. exists (k, v).
      split; [now apply elem_of_map_to_list|].
      apply spec_entry_Some. auto.
  - intros Hl. apply elem_of_list_to_map_2 in Hl.
    apply list_elem_of_omap in Hl as ([k w] & Hin & Hs).
    apply elem_of_map_to_list in Hin.
    apply spec_entry_Some in Hs as (Hp & He & -> & ->).
    apply cleaned_kept.
    + now apply elem_of_range.
    + apply (Hkeeps k w Hin). auto.
    + intros k2 v2 Hin2 Hk2 Hn. apply elem_of_range in Hin2.
      apply (Hkeeps k2 v2 Hin2) in Hk2 as [Hp2 _].
      eapply Hinj; eauto.
Qed.

End Cleanup.

Section CleanupExamples.

(** Scenario S4. *)
Example cleanupMetadata_S4 :
  @cleanupMetadata ascii_Strings fixed_MapRange
    (Sample.event_of Sample.helmRelease "info" "install ok" "InstallSucceeded"
       (Some (<["helm.toolkit.fluxcd.io/revision" := "1.0"]>
               (<["helm.toolkit.fluxcd.io/checksum" := "abc"]>
                 (<["other/x" := "y"]> ∅)))))
  = Sample.event_of Sample.helmRelease "info" "install ok" "InstallSucceeded"
      (Some (<["revision" := "1.0"]> ∅)).
Proof. vm_compute. reflexivity. Qed.

Definition configMap : ObjectReference :=
  {| Kind := "ConfigMap"; Namespace := "ns1"; Name := "settings";
     UID := "c1"; APIVersion := "v1"; ResourceVersion := "1" |}.

(** Three events on which the code and the specification's rule part:
    a checksum key in another case is dropped; a key that begins with
    the group but not with "G/" is kept as it is; with the empty group of
    a core object every key is kept. *)
Lemma cleanupMetadata_not_spec :
  @cleanupMetadata ascii_Strings fixed_MapRange
    (Sample.event_of Sample.helmRelease "info" "m" "r"
       (Some (<["helm.toolkit.fluxcd.io/Checksum" := "abc"]> ∅)))
  <> spec_cleanupMetadata
       (Sample.event_of Sample.helmRelease "info" "m" "r"
          (Some (<["helm.toolkit.fluxcd.io/Checksum" := "abc"]> ∅)))
  /\ @cleanupMetadata ascii_Strings fixed_MapRange
       (Sample.event_of Sample.helmRelease "info" "m" "r"
          (Some (<["helm.toolkit.fluxcd.io.v2/revision" := "7"]> ∅)))
     <> spec_cleanupMetadata
          (Sample.event_of Sample.helmRelease "info" "m" "r"
             (Some (<["helm.toolkit.fluxcd.io.v2/revision" := "7"]> ∅)))
  /\ @cleanupMetadata ascii_Strings fixed_MapRange
       (Sample.event_of configMap "info" "m" "r" (Some (<["revision" := "7"]> ∅)))
     <> spec_cleanupMetadata
          (Sample.event_of configMap "info" "m" "r" (Some (<["revision" := "7"]> ∅))).
Proof.
  repeat split; intros Heq.
  - apply (f_equal (fun e => entries e !! "Checksum")) in Heq.
    vm_compute in Heq. discriminate.
  - apply (f_equal (fun e => entries e !! "helm.toolkit.fluxcd.io.v2/revision")) in Heq.
    vm_compute in Heq. discriminate.
  - apply (f_equal (fun e => entries e !! "revision")) in Heq.
    vm_compute in Heq. discriminate.
Qed.

(** On the event of scenario S4 the second application drops the one
    entry the first one kept; and a key doubled in the group keeps one
    "G/". *)
Lemma cleanupMetadata_not_idempotent :
  @cleanupMetadata ascii_Strings fixed_MapRange
    (@cleanupMetadata ascii_Strings fixed_MapRange
       (Sample.event_of Sample.helmRelease "info" "m" "r"
          (Some (<["helm.toolkit.fluxcd.io/revision" := "1.0"]> ∅))))
  <> @cleanupMetadata ascii_Strings fixed_MapRange
       (Sample.event_of Sample.helmRelease "info" "m" "r"
          (Some (<["helm.toolkit.fluxcd.io/revision" := "1.0"]> ∅)))
  /\ entries (@cleanupMetadata ascii_Strings fixed_MapRange
                (Sample.event_of Sample.helmRelease "info" "m" "r"
                   (Some (<["helm.toolkit.fluxcd.io/helm.toolkit.fluxcd.io/x" := "1"]> ∅))))
     !! "helm.toolkit.fluxcd.io/x" = Some "1"
  /\ HasPrefix "helm.toolkit.fluxcd.io/x" ("helm.toolkit.fluxcd.io" +:+ "/") = true.
Proof.
  split; [|split; vm_compute; reflexivity].
  intros Heq. apply (f_equal (fun e => entries e !! "revision")) in Heq.
  vm_compute in Heq. discriminate.
Qed.

End CleanupExamples.

(** ** Properties of the CDEvents sender *)

Section CDEventsSender.
Context `{Strings} `{MapRange} `{NE : notifier.Env}.

Lemma eqb_neq_false (a b : string) : a <> b -> String.eqb a b = false.
Proof. apply String.eqb_neq. Qed.

(** C7, as the code has it. The payload's kind follows the lower-cased
    Reason: installsucceeded gives EnvironmentModified; upgradesucceeded
    and rollbacksucceeded give TaskRunFinished with outcome Success;
    testsucceeded gives TestCaseRunFinished with outcome Success;
    testfailed gives TestCaseRunFinished; upgradefailed, rollbackfailed
    and driftdetected give TaskRunFinished with outcome Failure;
    reconciliationsucceeded gives ServiceDeployed, whose artifact id is
    the involved object's UID and whose environment refers to that UID
    and the object's name; every other Reason gives IncidentDetected. In
    all cases the source is "<name>.<kind>" of the involved object, the
    subject id is its UID and the event itself is the custom data. *)
Theorem Post_payload_mapping (event : Event) :
  cd_Source (Post_payload event)
  = Name (InvolvedObject event) +:+ "." +:+ Kind (InvolvedObject event)
  /\ cd_SubjectId (Post_payload event) = UID (InvolvedObject event)
  /\ cd_CustomData (Post_payload event) = Some ("application/json", event)
  /\ (ToLower (Reason event) = "installsucceeded" ->
      cd_Type (Post_payload event) = EnvironmentModified)
  /\ (ToLower (Reason event) = "upgradesucceeded"
      \/ ToLower (Reason event) = "rollbacksucceeded" ->
      cd_Type (Post_payload event) = TaskRunFinished
      /\ cd_SubjectOutcome (Post_payload event) = "Success")
  /\ (ToLower (Reason event) = "testsucceeded" ->
      cd_Type (Post_payload event) = TestCaseRunFinished
      /\ cd_SubjectOutcome (Post_payload event) = "Success")
  /\ (ToLower (Reason event) = "testfailed" ->
      cd_Type (Post_payload event) = TestCaseRunFinished)
  /\ (ToLower (Reason event) = "upgradefailed"
      \/ ToLower (Reason event) = "rollbackfailed"
      \/ ToLower (Reason event) = "driftdetected" ->
      cd_Type (Post_payload event) = TaskRunFinished
      /\ cd_SubjectOutcome (Post_payload event) = "Failure")
  /\ (ToLower (Reason event) = "reconciliationsucceeded" ->
      cd_Type (Post_payload event) = ServiceDeployed
      /\ cd_SubjectArtifactId (Post_payload event) = UID (InvolvedObject event)
      /\ cd_SubjectEnvironment (Post_payload event)
         = Some {| ref_Id := UID (InvolvedObject event);
                   ref_Source := Name (InvolvedObject event) |})
  /\ (~ In (ToLower (Reason event))
           ["installsucceeded"; "upgradesucceeded"; "upgradefailed";
            "testsucceeded"; "testfailed"; "rollbacksucceeded";
            "rollbackfailed"; "driftdetected"; "reconciliationsucceeded"] ->
      cd_Type (Post_payload event) = IncidentDetected).
Proof.
  unfold Post_payload, Post_switch. cbv zeta.
  split; [reflexivity|]. split; [reflexivity|]. split; [reflexivity|].
  split. { intros Hr. rewrite Hr. reflexivity. }
  split. { intros [Hr|Hr]; rewrite Hr; split; reflexivity. }
  split. { intros Hr. rewrite Hr. split; reflexivity. }
  split. { intros Hr. rewrite Hr. reflexivity. }
  split. { intros [Hr|[Hr|Hr]]; rewrite Hr; split; reflexivity. }
  split. { intros Hr. rewrite Hr. repeat split; reflexivity. }
  intros Hother. simpl in Hother.
  rewrite !eqb_neq_false by (intros Heq; apply Hother; rewrite Heq; tauto).
  reflexivity.
Qed.

(** C9. Post returns nil for every event, whatever postMessage returns:
    [err1] stays nil, so the guard on both errors never holds. *)
Theorem Post_returns_nil (s : CDEvents) (event : Event) :
  Post s event = None.
Proof.
  unfold Post. cbv zeta.
  destruct (postMessage _ _ _ _ _); reflexivity.
Qed.

End CDEventsSender.

(** The kind the specification's table gives for a lower-cased Reason. *)
Definition spec_kind (reason : string) : CDEventType :=
  if String.eqb reason "installsucceeded" then EnvironmentModified
  else if String.eqb reason "upgradesucceeded" || String.eqb reason "rollbacksucceeded"
          || String.eqb reason "testsucceeded" then TaskRunFinished
  else if String.eqb reason "upgradefailed" || String.eqb reason "rollbackfailed"
          || String.eqb reason "driftdetected" then TaskRunFinished
  else if String.eqb reason "reconciliationsucceeded" then ServiceDeployed
  else IncidentDetected.

Section CDEventsExamples.

(** For the Reasons TestSucceeded and TestFailed the code builds a
    TestCaseRunFinished event, where the table has TaskRunFinished and
    IncidentDetected. *)
Lemma Post_payload_not_spec :
  cd_Type (@Post_payload ascii_Strings Sample.nenv
             (Sample.event_of Sample.helmRelease "info" "tests passed" "TestSucceeded" None))
  = TestCaseRunFinished
  /\ spec_kind (ascii_ToLower "TestSucceeded") = TaskRunFinished
  /\ cd_Type (@Post_payload ascii_Strings Sample.nenv
                (Sample.event_of Sample.helmRelease "error" "tests failed" "TestFailed" None))
     = TestCaseRunFinished
  /\ spec_kind (ascii_ToLower "TestFailed") = IncidentDetected
  /\ cd_Type (@Post_payload ascii_Strings Sample.nenv
                (Sample.event_of Sample.helmRelease "info" "tests passed" "TestSucceeded" None))
     <> spec_kind (ascii_ToLower "TestSucceeded").
Proof. repeat split; try reflexivity. discriminate. Qed.

(** The transport of [Sample.nenv] fails on every call, and Post still
    returns nil. *)
Example Post_hides_failure :
  @postMessage Sample.nenv "http://localhost:9393" "" None
    (@Post_payload ascii_Strings Sample.nenv
       (Sample.event_of Sample.helmRelease "info" "m" "UpgradeSucceeded" None))
    (@Post_headers Sample.nenv
       (@Post_payload ascii_Strings Sample.nenv
          (Sample.event_of Sample.helmRelease "info" "m" "UpgradeSucceeded" None)))
  = Some "connection refused"
  /\ @Post ascii_Strings fixed_MapRange Sample.nenv
       {| URL := "http://localhost:9393"; ProxyURL := ""; cde_CertPool := None |}
       (Sample.event_of Sample.helmRelease "info" "m" "UpgradeSucceeded" None)
     = None.
Proof. split; reflexivity. Qed.

End CDEventsExamples.

(** ** Properties of the dispatcher *)

Section Dispatcher.
Context `{Strings} `{MapRange} `{Labels} `{NE : notifier.Env}
        `{NI : !notifier.Interface} `{SE : !server.Env}.

(** The provider's Secret, when one is named and can be read, has no
    "address" key. *)
Definition noAddressOverride (kubeClient : Client) (provider : Provider) : Prop :=
  forall name secret,
    SecretRef (provider_Spec provider) = Some name ->
    Get_Secret kubeClient (provider_Namespace provider) name = Ok secret ->
    Data secret !! "address" = None.

Lemma createNotifier_secret_webhook kubeClient provider c c' :
  noAddressOverride kubeClient provider ->
  createNotifier_secret kubeClient provider c = Ok c' ->
  webhook c' = webhook c.
Proof.
  unfold noAddressOverride, createNotifier_secret. intros Hno.
  destruct (SecretRef (provider_Spec provider)) as [name|]; [|intros [= <-]; reflexivity].
  destruct (Get_Secret kubeClient (provider_Namespace provider) name) as [secret|err] eqn:Hg;
    [|discriminate].
  rewrite (Hno name secret eq_refl Hg). simpl.
  destruct (Data secret !! "proxy") as [p|]; simpl.
  - destruct (url_Parse p); simpl; [discriminate|].
    destruct (Data secret !! "headers") as [h|]; simpl.
    + destruct (yaml_Unmarshal h); simpl; [|discriminate]. intros [= <-]. reflexivity.
    + intros [= <-]. reflexivity.
  - destruct (Data secret !! "headers") as [h|]; simpl.
    + destruct (yaml_Unmarshal h); simpl; [|discriminate]. intros [= <-]. reflexivity.
    + intros [= <-]. reflexivity.
Qed.

(** C8. For a Provider whose Spec.Address is empty and whose Secret, if
    it names one, supplies no "address" key, createNotifier returns an
    error and no notifier; getNotificationParams passes an error on, and
    dispatchNotification starts no delivery. *)
Theorem createNotifier_no_address (kubeClient : Client) (provider : Provider) :
  Address (provider_Spec provider) = "" ->
  noAddressOverride kubeClient provider ->
  exists err,
    createNotifier kubeClient provider = Err err
    /\ forall s event alert,
         kubeClient = server.kubeClient s ->
         Get_Provider kubeClient (alert_Namespace alert)
           (ProviderRef (alert_Spec alert)) = Ok provider ->
         provider_Suspend (provider_Spec provider) = false ->
         exists err',
           getNotificationParams s event alert = Err err'
           /\ dispatchNotification s event alert = ret (Some err').
Proof.
  intros Haddr Hno.
  assert (Hc : exists err, createNotifier kubeClient provider = Err err).
  { unfold createNotifier.
    destruct (createNotifier_secret kubeClient provider _) as [c'|err] eqn:Hs;
      simpl; [|eauto].
    apply createNotifier_secret_webhook in Hs; [|assumption]. simpl in Hs.
    destruct (createNotifier_certPool kubeClient provider) as [pool|err];
      simpl; [|eauto].
    rewrite Hs, Haddr. simpl. eauto. }
  destruct Hc as [err Hc]. exists err. split; [assumption|].
  intros s event alert -> Hp Hsusp.
  unfold dispatchNotification, getNotificationParams.
  destruct (_ && _); [eauto|].
  rewrite Hp, Hsusp, Hc. eauto.
Qed.

(** Without secrets the error is the one of the address check. *)
Lemma createNotifier_no_address_plain kubeClient provider :
  Address (provider_Spec provider) = "" ->
  SecretRef (provider_Spec provider) = None ->
  CertSecretRef (provider_Spec provider) = None ->
  createNotifier kubeClient provider = Err "provider has no address".
Proof.
  intros Ha Hs Hc. unfold createNotifier, createNotifier_secret, createNotifier_certPool.
  rewrite Hs, Hc. simpl. rewrite Ha. reflexivity.
Qed.

(** C10. Once the body is read and decoded, a failure to list the
    Alerts makes handleEvent log that error, log that the event is
    discarded for want of alerts, and answer 202 Accepted; it starts no
    delivery and writes no other status. *)
Theorem handleEvent_list_failure (s : EventServer) (r : Request)
    (body : string) (event : Event) (err : error) :
  Body r = Ok body ->
  json_Unmarshal body = Ok event ->
  List_Alerts (kubeClient s) = Err err ->
  handleEvent s r
  = ([ LogError (wrap "failed listing alerts" err)
         "failed to get alerts for the event: %w" [wrap "failed listing alerts" err];
       LogInfo "Discarding event, no alerts found for the involved object"
         (involved (cleanupMetadata event));
       WriteHeader StatusAccepted ],
     Returned tt)
  /\ statusWritten (fst (handleEvent s r)) = Some 202%Z.
Proof.
  intros Hb Hj Hl.
  assert (Heq : handleEvent s r
                = ([ LogError (wrap "failed listing alerts" err)
                       "failed to get alerts for the event: %w"
                       [wrap "failed listing alerts" err];
                     LogInfo "Discarding event, no alerts found for the involved object"
                       (involved (cleanupMetadata event));
                     WriteHeader StatusAccepted ],
                   Returned tt)).
  { unfold handleEvent, getAllAlertsForEvent. rewrite Hb, Hj, Hl. reflexivity. }
  split; [exact Heq|]. rewrite Heq. reflexivity.
Qed.

(** When the notifier of a delivery is a CDEvents sender, the goroutine
    has no failure to log, whatever the transport did. *)
Lemma deliver_CDEvents_silent (s : CDEvents) (event : Event) (d : Delivery) :
  Notifier_Post (d_sender d) (d_notification d) = Post s (d_notification d) ->
  deliver event d = ret tt.
Proof.
  intros Hpost. unfold deliver. rewrite Hpost. unfold Post. cbv zeta.
  destruct (postMessage _ _ _ _ _); reflexivity.
Qed.

End Dispatcher.

(** ** The theorems at work on the sample collaborators *)

Section Witnesses.
Import Sample.

#[local] Existing Instances ascii_Strings fixed_MapRange labels nenv iface senv.

(** Of a suspended and a live alert on the same source, the live one
    alone is matched. *)
Lemma filterAlertsForEvent_no_suspended_witness :
  filterAlertsForEvent (srv (Ok [])) [paused; live] installed = ([], Returned [live])
  /\ [live] `sublist_of` [paused; live]
  /\ forall a, a ∈ [live] -> alert_Suspend (alert_Spec a) = false.
Proof.
  split; [vm_compute; reflexivity|].
  apply (proj1 (filterAlertsForEvent_no_suspended (srv (Ok [])) [paused; live] installed)
           [] [live]).
  vm_compute. reflexivity.
Defined.

(** Scenario S2, with a pattern that does not compile put first. *)
Example messageIsExcluded_S2 :
  messageIsExcluded "Cluster drift detected" ["("; "drift"]
  = ([compileFailure "(" "error parsing regexp: ("], Returned true)
  /\ messageIsExcluded "install ok" ["("; "drift"]
     = ([compileFailure "(" "error parsing regexp: ("], Returned false).
Proof. split; vm_compute; reflexivity. Qed.

Lemma messageIsExcluded_iff_witness :
  exists t b,
    messageIsExcluded "Cluster drift detected" ["("; "drift"] = (t, Returned b)
    /\ b = true.
Proof.
  destruct (messageIsExcluded_iff "Cluster drift detected" ["("; "drift"])
    as (t & b & Heq & Hb & _).
  exists t, b. split; [exact Heq|].
  apply Hb. exists "drift". split.
  - right. left.
  - exists "drift". split; vm_compute; reflexivity.
Defined.

(** Scenario S3, and an error event on an alert for errors. *)
Example eventMatchesAlert_S3 :
  filterAlertsForEvent (srv (Ok [])) [errorsOnly] installed = ([], Returned [])
  /\ filterAlertsForEvent (srv (Ok [])) [errorsOnly] failed = ([], Returned [errorsOnly]).
Proof. split; vm_compute; reflexivity. Qed.

Lemma eventMatchesAlert_severity_witness :
  eventMatchesAlert (srv (Ok [])) failed (source_of "HelmRelease" "*" "ns1" None) "error"
  = eventMatchesAlert (srv (Ok [])) failed (source_of "HelmRelease" "*" "ns1" None)
      EventSeverityInfo
  /\ eventMatchesAlert (srv (Ok [])) installed (source_of "HelmRelease" "*" "ns1" None) "error"
     = ret false.
Proof.
  split.
  - destruct (eventMatchesAlert_severity (srv (Ok [])) failed
                (source_of "HelmRelease" "*" "ns1" None) "error")
      as (_ & _ & _ & _ & Hother).
    destruct Hother as (_ & Hsame & _); [discriminate|].
    apply Hsame. reflexivity.
  - destruct (eventMatchesAlert_severity (srv (Ok [])) installed
                (source_of "HelmRelease" "*" "ns1" None) "error")
      as (_ & _ & _ & _ & Hother).
    destruct Hother as (_ & _ & Hdiff); [discriminate|].
    apply Hdiff. discriminate.
Defined.

Lemma GetWebhookPath_spec_witness :
  GetWebhookPath {| receiver_Name := "c"; receiver_Namespace := "n1" |} "ab"
  = GetWebhookPath {| receiver_Name := "bc"; receiver_Namespace := "n1" |} "a".
Proof.
  apply (proj1 (proj2 (GetWebhookPath_spec
                         {| receiver_Name := "c"; receiver_Namespace := "n1" |}
                         {| receiver_Name := "bc"; receiver_Namespace := "n1" |}
                         "ab" "a"))).
  reflexivity.
Defined.

Lemma cleanupMetadata_spec_witness :
  exists r,
    cleanupMetadata revised = with_Metadata revised (Some r)
    /\ r !! "revision" = Some "1.0".
Proof.
  destruct (cleanupMetadata_spec revised) as (r & Heq & _ & Hkept & _).
  exists r. split; [exact Heq|].
  apply (proj2 (Hkept "helm.toolkit.fluxcd.io/revision" "1.0" eq_refl eq_refl)).
  intros k2 [v2 Hk2] _ _.
  change (entries revised)
    with (<["helm.toolkit.fluxcd.io/revision" := "1.0"]> (∅ : gmap string string)) in Hk2.
  apply lookup_insert_Some in Hk2 as [[<- _]|[_ Hk2]]; [reflexivity|].
  rewrite lookup_empty in Hk2. discriminate.
Defined.

Lemma cleanupMetadata_revised :
  entries (cleanupMetadata revised) = <["revision" := "1.0"]> ∅.
Proof. vm_compute. reflexivity. Qed.

Lemma cleanupMetadata_twice_witness :
  cleanupMetadata (cleanupMetadata revised) = with_Metadata revised (Some ∅).
Proof.
  apply (proj1 (proj2 (cleanupMetadata_twice revised))).
  intros k [v Hk]. rewrite cleanupMetadata_revised in Hk.
  apply lookup_insert_Some in Hk as [[<- _]|[_ Hk]]; [reflexivity|].
  rewrite lookup_empty in Hk. discriminate.
Defined.

Lemma Post_payload_mapping_witness :
  cd_Type (Post_payload installed) = EnvironmentModified
  /\ cd_Type (Post_payload failed) = TaskRunFinished
  /\ cd_SubjectOutcome (Post_payload failed) = "Failure".
Proof.
  split.
  - apply (Post_payload_mapping installed). reflexivity.
  - apply (Post_payload_mapping failed). left. reflexivity.
Defined.

(** The provider slack1 has no address, and its secret holds a token
    only. *)
Lemma createNotifier_no_address_witness :
  exists err, createNotifier (store (Ok [live])) (slack1 "" (Some "creds")) = Err err.
Proof.
  destruct (createNotifier_no_address (store (Ok [live])) (slack1 "" (Some "creds")))
    as (err & Herr & _).
  - reflexivity.
  - intros name secret Hn Hg. injection Hn as <-.
    vm_compute in Hg. injection Hg as <-. vm_compute. reflexivity.
  - exists err. exact Herr.
Defined.

Example createNotifier_sample :
  createNotifier (store (Ok [live])) (slack1 "" (Some "creds"))
  = Err "provider has no address"
  /\ createNotifier (store (Ok [live])) (slack1 "http://slack.example" (Some "creds"))
     = Ok (("slack", "http://slack.example"), "super-secret")
  /\ handleEvent (srv (Ok [live])) {| Body := Ok "{}" |}
     = ([LogInfo "Discarding event, no alerts found for the involved object"
           ["reconciler kind"; ""; "name"; ""; "namespace"; ""];
         WriteHeader 202], Returned tt).
Proof. repeat split; vm_compute; reflexivity. Qed.

(** The store refuses to list the alerts; the decoded event is answered
    with 202. *)
Lemma handleEvent_list_failure_witness :
  statusWritten (fst (handleEvent (srv (Err "connection refused")) {| Body := Ok "{}" |}))
  = Some 202%Z.
Proof.
  apply (handleEvent_list_failure (srv (Err "connection refused")) {| Body := Ok "{}" |}
           "{}" (event_of emptyObject "" "" "" None) "connection refused");
    reflexivity.
Defined.

End Witnesses.

(** ** Further properties of the event matcher *)

Section MatcherOutcomes.
Context `{Strings} `{MapRange} `{Labels} `{NE : notifier.Env}
        `{NI : !notifier.Interface} `{SE : !server.Env}.

(** The tests of eventMatchesAlert that need no store: namespace, kind,
    severity and name. *)
Definition sourceAdmits (event : Event) (source : CrossNamespaceObjectReference)
    (severity : string) : bool :=
  String.eqb (Namespace (InvolvedObject event)) (src_Namespace source)
  && String.eqb (Kind (InvolvedObject event)) (src_Kind source)
  && (String.eqb (Severity event) severity || String.eqb severity EventSeverityInfo)
  && (String.eqb (src_Name source) "*"
      || String.eqb (src_Name source) (Name (InvolvedObject event))).

(** The record logged when the involved object cannot be read. *)
Definition fetchFailure (event : Event) (err : error) : Effect :=
  LogError err "error getting object"
    ["kind"; Kind (InvolvedObject event); "name"; Name (InvolvedObject event);
     "apiVersion"; APIVersion (InvolvedObject event)].

(** The label selection of eventMatchesAlert, reached when the other tests
    pass and the source has matchLabels. *)
Definition selectLabels (s : EventServer) (event : Event)
    (source : CrossNamespaceObjectReference) (matchLabels : gmap string string) : M bool :=
  bind (match Get_Labels (kubeClient s) (GetGroupVersionKind (InvolvedObject event))
                (Namespace (InvolvedObject event)) (Name (InvolvedObject event)) with
        | Ok l => ret l
        | Err err => bind (emit (fetchFailure event err)) (fun _ => ret ∅)
        end)
       (fun labels =>
          match LabelSelectorAsSelector matchLabels with
          | Ok sel => ret (Matches sel labels)
          | Err err =>
              bind (emit (LogError err ("error using matchLabels from event source '"
                                        +:+ src_Name source +:+ "'") []))
                   (fun _ => panic)
          end).

Lemma eventMatchesAlert_unfold s event source severity :
  eventMatchesAlert s event source severity
  = if sourceAdmits event source severity then
      match src_MatchLabels source with
      | None => ret true
      | Some matchLabels => selectLabels s event source matchLabels
      end
    else ret false.
Proof.
  unfold eventMatchesAlert, sourceAdmits, severityMismatch, selectLabels, fetchFailure.
  destruct (String.eqb (Namespace (InvolvedObject event)) (src_Namespace source));
    simpl; [|reflexivity].
  destruct (String.eqb (Kind (InvolvedObject event)) (src_Kind source));
    simpl; [|reflexivity].
  destruct (String.eqb (Severity event) severity); simpl;
    destruct (String.eqb severity EventSeverityInfo); simpl; try reflexivity;
    destruct (String.eqb (src_Name source) "*"); simpl; try reflexivity;
    destruct (String.eqb (src_Name source) (Name (InvolvedObject event))); reflexivity.
Qed.

(** X1. For a source without matchLabels eventMatchesAlert reads nothing
    from the store and logs nothing: it returns whether namespace and kind
    are equal, the severity is the alert's or the alert's is "info", and the
    name is the source's or the source's is "*". *)
Theorem eventMatchesAlert_without_labels (s : EventServer) (event : Event)
    (source : CrossNamespaceObjectReference) (severity : string) :
  src_MatchLabels source = None ->
  eventMatchesAlert s event source severity = ret (sourceAdmits event source severity).
Proof.
  intros Hnil. rewrite eventMatchesAlert_unfold, Hnil.
  destruct (sourceAdmits event source severity); reflexivity.
Qed.

(** X2. When the other tests pass and the involved object cannot be read,
    eventMatchesAlert logs the failure and selects on an empty label set:
    the event is matched exactly when the source's selector matches an
    object without labels. *)
Theorem eventMatchesAlert_fetch_failure (s : EventServer) (event : Event)
    (source : CrossNamespaceObjectReference) (severity : string)
    (matchLabels : gmap string string) (sel : Selector) (err : error) :
  sourceAdmits event source severity = true ->
  src_MatchLabels source = Some matchLabels ->
  LabelSelectorAsSelector matchLabels = Ok sel ->
  Get_Labels (kubeClient s) (GetGroupVersionKind (InvolvedObject event))
    (Namespace (InvolvedObject event)) (Name (InvolvedObject event)) = Err err ->
  eventMatchesAlert s event source severity
  = ([fetchFailure event err], Returned (Matches sel ∅)).
Proof.
  intros Ha Hml Hsel Hget. rewrite eventMatchesAlert_unfold, Ha, Hml.
  unfold selectLabels. rewrite Hget, Hsel. reflexivity.
Qed.

(** X3. eventMatchesAlert panics exactly when the tests on namespace, kind,
    severity and name pass and the source's matchLabels do not build a
    selector; in every other case it returns. *)
Theorem eventMatchesAlert_panics_iff (s : EventServer) (event : Event)
    (source : CrossNamespaceObjectReference) (severity : string) :
  snd (eventMatchesAlert s event source severity) = Panicked
  <-> sourceAdmits event source severity = true
      /\ exists matchLabels err,
           src_MatchLabels source = Some matchLabels
           /\ LabelSelectorAsSelector matchLabels = Err err.
Proof.
  rewrite eventMatchesAlert_unfold.
  destruct (sourceAdmits event source severity).
  - destruct (src_MatchLabels source) as [ml|].
    + unfold selectLabels.
      destruct (LabelSelectorAsSelector ml) as [sel|err] eqn:Hsel;
        destruct (Get_Labels _ _ _ _); simpl; split;
        try discriminate; try (intros (_ & ml' & err' & [= <-] & Hs); congruence);
        intros _; split; eauto.
    + simpl. split; [discriminate|]. intros (_ & ml & err & Hml & _). discriminate.
  - simpl. split; [discriminate|]. intros [Hf _]. discriminate.
Qed.

(** A source as the loop of eventMatchesAlertSources passes it on: an
    empty namespace is replaced by the alert's. *)
Definition defaulted (alert : Alert) (source : CrossNamespaceObjectReference)
  : CrossNamespaceObjectReference :=
  if String.eqb (src_Namespace source) "" then
    with_Namespace source (alert_Namespace alert)
  else source.

(** X4. For an alert whose sources have no matchLabels,
    eventMatchesAlertSources logs nothing and returns whether some source
    admits the event, a source without namespace standing for the alert's
    own namespace; without sources it returns false. *)
Theorem eventMatchesAlertSources_any (s : EventServer) (event : Event) (alert : Alert) :
  (forall src, src ∈ EventSources (alert_Spec alert) -> src_MatchLabels src = None) ->
  eventMatchesAlertSources s event alert
  = ret (existsb (fun src => sourceAdmits event (defaulted alert src)
                               (EventSeverity (alert_Spec alert)))
                 (EventSources (alert_Spec alert))).
Proof.
  unfold eventMatchesAlertSources.
  induction (EventSources (alert_Spec alert)) as [|src rest IH]; intros Hnil;
    [reflexivity|].
  simpl. fold (defaulted alert src).
  assert (Hsrc : src_MatchLabels (defaulted alert src) = None).
  { unfold defaulted. destruct (String.eqb (src_Namespace src) ""); simpl;
      apply Hnil; left. }
  rewrite eventMatchesAlert_unfold, Hsrc.
  destruct (sourceAdmits event (defaulted alert src) (EventSeverity (alert_Spec alert)));
    simpl; [reflexivity|].
  rewrite IH; [reflexivity|]. intros src' Hin. apply Hnil. right; assumption.
Qed.

(** Whether a computation returns the value [b]. *)
Definition returns_bool (m : M bool) (b : bool) : bool :=
  match snd m with
  | Returned b' => Bool.eqb b' b
  | Panicked => false
  end.

(** The three tests of filterAlertsForEvent's loop on one alert. *)
Definition admitted (s : EventServer) (event : Event) (alert : Alert) : bool :=
  negb (alert_Suspend (alert_Spec alert))
  && returns_bool (eventMatchesAlertSources s event alert) true
  && returns_bool (messageIsExcluded (Message event) (ExclusionList (alert_Spec alert))) false.

Lemma filterAlertsForEvent_loop_exact s alerts event acc t results :
  filterAlertsForEvent_loop s alerts event acc = (t, Returned results) ->
  results = acc ++ List.filter (admitted s event) alerts.
Proof.
  revert acc t. induction alerts as [|a rest IH]; intros acc t; simpl.
  - intros [= <- <-]. now rewrite app_nil_r.
  - unfold admitted at 1. destruct (alert_Suspend (alert_Spec a)); simpl; [apply IH|].
    intros Hr. apply bind_returned in Hr as (t1 & matched & t2 & Hm & Hr & _).
    unfold returns_bool at 1. rewrite Hm. simpl.
    destruct matched; simpl in *; [|eapply IH; eauto].
    apply bind_returned in Hr as (t3 & excluded & t4 & He & Hr & _).
    unfold returns_bool. rewrite He. simpl.
    destruct excluded; simpl; [eapply IH; eauto|].
    apply IH in Hr. rewrite Hr, <- app_assoc. reflexivity.
Qed.

(** X5. The match set filterAlertsForEvent returns is, in the order of the
    input, exactly the alerts that are not suspended, have a source that
    matches the event, and have no exclusion entry that matches its
    message. *)
Theorem filterAlertsForEvent_exact (s : EventServer) (alerts : list Alert)
    (event : Event) (t : list Effect) (results : list Alert) :
  filterAlertsForEvent s alerts event = (t, Returned results) ->
  results = List.filter (admitted s event) alerts.
Proof. intros Hr. now apply filterAlertsForEvent_loop_exact in Hr. Qed.

Lemma messageIsExcluded_loop_stop msg l1 exp l2 :
  excludes msg exp ->
  messageIsExcluded_loop msg (l1 ++ exp :: l2)
  = messageIsExcluded_loop msg (l1 ++ [exp]).
Proof.
  intros (r & Hc & Hm). induction l1 as [|x l1 IH]; simpl.
  - now rewrite Hc, Hm.
  - destruct (regexp_Compile x) as [rx|err].
    + destruct (regexp_Match rx msg); [reflexivity | exact IH].
    + unfold bind. simpl. now rewrite IH.
Qed.

Lemma messageIsExcluded_is_loop msg R :
  messageIsExcluded msg R = messageIsExcluded_loop msg R.
Proof. destruct R; reflexivity. Qed.

(** X6. messageIsExcluded stops at the first entry that compiles and
    matches: the entries after it are neither compiled nor logged, and the
    result is true. *)
Theorem messageIsExcluded_stops_at_match (msg : string) (l1 l2 : list string)
    (exp : string) :
  excludes msg exp ->
  messageIsExcluded msg (l1 ++ exp :: l2) = messageIsExcluded msg (l1 ++ [exp])
  /\ snd (messageIsExcluded msg (l1 ++ exp :: l2)) = Returned true.
Proof.
  intros Hex. rewrite !messageIsExcluded_is_loop.
  split; [now apply messageIsExcluded_loop_stop|].
  destruct (messageIsExcluded_loop_spec msg (l1 ++ exp :: l2)) as (t & b & Hl & Hb & _).
  rewrite Hl. simpl. f_equal. apply Hb. exists exp. split; [|assumption].
  apply elem_of_app. right. left.
Qed.

End MatcherOutcomes.

(** ** Further properties of the dispatcher *)

Section DispatcherOutcomes.
Context `{Strings} `{MapRange} `{Labels} `{NE : notifier.Env}
        `{NI : !notifier.Interface} `{SE : !server.Env}.

(** The deliveries started, the statuses written and the errors logged in
    a trace, in order. *)
Definition deliveries (t : list Effect) : list Delivery :=
  omap (fun e => match e with GoDeliver d => Some d | _ => None end) t.

Definition statuses (t : list Effect) : list Z :=
  omap (fun e => match e with WriteHeader status => Some status | _ => None end) t.

Definition errorsLogged (t : list Effect) : list error :=
  omap (fun e => match e with LogError err _ _ => Some err | _ => None end) t.

(** A trace that starts no delivery and writes no status. *)
Definition quiet (t : list Effect) : Prop := deliveries t = [] /\ statuses t = [].

Lemma quiet_app t1 t2 : quiet t1 -> quiet t2 -> quiet (t1 ++ t2).
Proof.
  unfold quiet, deliveries, statuses. intros [Hd1 Hs1] [Hd2 Hs2].
  rewrite !omap_app, Hd1, Hs1, Hd2, Hs2. auto.
Qed.

Lemma bind_quiet {A B} (m : M A) (k : A -> M B) :
  quiet (fst m) -> (forall a, quiet (fst (k a))) -> quiet (fst (bind m k)).
Proof.
  destruct m as [t [a|]]; simpl; intros Hm Hk; [|assumption].
  specialize (Hk a). destruct (k a) as [t' r]. simpl in *. now apply quiet_app.
Qed.

Lemma quiet_nil : quiet [].
Proof. split; reflexivity. Qed.

Lemma messageIsExcluded_quiet msg R : quiet (fst (messageIsExcluded msg R)).
Proof.
  rewrite messageIsExcluded_is_loop.
  induction R as [|exp R IH]; cbn [messageIsExcluded_loop]; [apply quiet_nil|].
  destruct (regexp_Compile exp) as [r|err].
  - destruct (regexp_Match r msg); [apply quiet_nil | exact IH].
  - apply bind_quiet; [split; reflexivity | intros _; exact IH].
Qed.

Lemma eventMatchesAlert_quiet s event source severity :
  quiet (fst (eventMatchesAlert s event source severity)).
Proof.
  rewrite eventMatchesAlert_unfold.
  destruct (sourceAdmits event source severity); [|apply quiet_nil].
  destruct (src_MatchLabels source) as [ml|]; [|apply quiet_nil].
  unfold selectLabels. apply bind_quiet.
  - destruct (Get_Labels _ _ _ _); split; reflexivity.
  - intros labels. destruct (LabelSelectorAsSelector ml); split; reflexivity.
Qed.

Lemma eventMatchesAlertSources_quiet s event alert :
  quiet (fst (eventMatchesAlertSources s event alert)).
Proof.
  unfold eventMatchesAlertSources.
  induction (EventSources (alert_Spec alert)) as [|src rest IH];
    cbn [eventMatchesAlertSources_loop]; [apply quiet_nil|].
  apply bind_quiet; [apply eventMatchesAlert_quiet|].
  intros [|]; [apply quiet_nil | exact IH].
Qed.

Lemma filterAlertsForEvent_quiet s alerts event :
  quiet (fst (filterAlertsForEvent s alerts event)).
Proof.
  unfold filterAlertsForEvent. generalize (@nil Alert).
  induction alerts as [|a rest IH]; intros acc; cbn [filterAlertsForEvent_loop];
    [apply quiet_nil|].
  destruct (alert_Suspend (alert_Spec a)); [apply IH|].
  apply bind_quiet; [apply eventMatchesAlertSources_quiet|].
  intros [|]; cbn [negb]; [|apply IH].
  apply bind_quiet; [apply messageIsExcluded_quiet|].
  intros [|]; apply IH.
Qed.

Lemma getAllAlertsForEvent_quiet s event :
  quiet (fst (getAllAlertsForEvent s event)).
Proof.
  unfold getAllAlertsForEvent. destruct (List_Alerts (kubeClient s)); [|apply quiet_nil].
  apply bind_quiet; [apply filterAlertsForEvent_quiet | intros; apply quiet_nil].
Qed.

(** The delivery dispatchNotification starts for an alert, and the error
    it returns. *)
Definition prepared (s : EventServer) (event : Event) (alert : Alert) : option Delivery :=
  match getNotificationParams s event alert with
  | Ok (Some d) => Some d
  | _ => None
  end.

Definition refused (s : EventServer) (event : Event) (alert : Alert) : option error :=
  match getNotificationParams s event alert with
  | Err err => Some err
  | Ok _ => None
  end.

Lemma handleEvent_dispatch_trace s event alerts :
  exists t,
    handleEvent_dispatch s event alerts = (t, Returned tt)
    /\ deliveries t = omap (prepared s event) alerts
    /\ errorsLogged t = omap (refused s event) alerts
    /\ statuses t = [].
Proof.
  induction alerts as [|a rest IH]; simpl.
  - exists []. repeat split; reflexivity.
  - destruct IH as (t & Heq & Hd & He & Hs). rewrite Heq.
    unfold dispatchNotification, prepared, refused.
    destruct (getNotificationParams s event a) as [[d|]|err]; simpl;
      eexists; (split; [reflexivity|]); simpl; rewrite ?Hd, ?He, ?Hs; auto.
Qed.

(** X7. The dispatch loop of handleEvent never stops early: it returns for
    every list of alerts, starts one delivery for each alert whose
    notification parameters resolve, in the order of the alerts, logs the
    error of each alert whose parameters do not resolve, and writes no
    status. *)
Theorem handleEvent_dispatch_all (s : EventServer) (event : Event) (alerts : list Alert) :
  exists t,
    handleEvent_dispatch s event alerts = (t, Returned tt)
    /\ deliveries t = omap (prepared s event) alerts
    /\ errorsLogged t = omap (refused s event) alerts
    /\ statuses t = [].
Proof. apply handleEvent_dispatch_trace. Qed.

(** The event a request decodes to, when its body is read and decoded. *)
Definition decoded (r : Request) : option Event :=
  match Body r with
  | Ok body =>
      match json_Unmarshal body with
      | Ok event => Some event
      | Err _ => None
      end
  | Err _ => None
  end.

(** X8. handleEvent writes at most one status. When the body cannot be
    read or decoded it returns having written 400 and started no delivery.
    Otherwise it either returns having written 202, or panics during the
    matching having written no status and started no delivery. *)
Theorem handleEvent_status (s : EventServer) (r : Request) :
  (decoded r = None ->
   snd (handleEvent s r) = Returned tt
   /\ statuses (fst (handleEvent s r)) = [StatusBadRequest]
   /\ deliveries (fst (handleEvent s r)) = [])
  /\ (forall event, decoded r = Some event ->
      (snd (handleEvent s r) = Returned tt
       /\ statuses (fst (handleEvent s r)) = [StatusAccepted])
      \/ (snd (handleEvent s r) = Panicked
          /\ statuses (fst (handleEvent s r)) = []
          /\ deliveries (fst (handleEvent s r)) = [])).
Proof.
  unfold decoded, handleEvent. split.
  - destruct (Body r) as [body|err]; [|intros _; repeat split].
    destruct (json_Unmarshal body) as [event|err]; [discriminate|].
    intros _. repeat split.
  - intros event. destruct (Body r) as [body|err]; [|discriminate].
    destruct (json_Unmarshal body) as [ev|err]; [|discriminate].
    intros [= ->].
    pose proof (getAllAlertsForEvent_quiet s (cleanupMetadata event)) as [Hqd Hqs].
    destruct (getAllAlertsForEvent s (cleanupMetadata event)) as [t0 [res|]];
      simpl in Hqd, Hqs; [|right; simpl; auto].
    left.
    assert (Hgo : forall alerts,
              snd (if (length alerts =? 0)%nat
                   then bind (emit (LogInfo
                          "Discarding event, no alerts found for the involved object"
                          (involved (cleanupMetadata event))))
                          (fun _ => emit (WriteHeader StatusAccepted))
                   else bind (emit (LogInfo ("Dispatching event: "
                                             +:+ Message (cleanupMetadata event))
                                      (involved (cleanupMetadata event))))
                          (fun _ => bind (handleEvent_dispatch s (cleanupMetadata event) alerts)
                                      (fun _ => emit (WriteHeader StatusAccepted))))
              = Returned tt
              /\ statuses (fst (if (length alerts =? 0)%nat
                   then bind (emit (LogInfo
                          "Discarding event, no alerts found for the involved object"
                          (involved (cleanupMetadata event))))
                          (fun _ => emit (WriteHeader StatusAccepted))
                   else bind (emit (LogInfo ("Dispatching event: "
                                             +:+ Message (cleanupMetadata event))
                                      (involved (cleanupMetadata event))))
                          (fun _ => bind (handleEvent_dispatch s (cleanupMetadata event) alerts)
                                      (fun _ => emit (WriteHeader StatusAccepted)))))
                 = [StatusAccepted]).
    { intros alerts. destruct (length alerts =? 0)%nat; [split; reflexivity|].
      destruct (handleEvent_dispatch_trace s (cleanupMetadata event) alerts)
        as (t & -> & _ & _ & Hs).
      simpl. split; [reflexivity|].
      unfold statuses in *. rewrite omap_app, Hs. reflexivity. }
    destruct res as [alerts|err]; simpl.
    + destruct (Hgo alerts) as [Ho Hs].
      destruct (if (length alerts =? 0)%nat then _ else _) as [t1 o1].
      simpl in *. subst o1. split; [reflexivity|].
      unfold statuses in *. rewrite omap_app, Hqs, Hs. reflexivity.
    + split; [reflexivity|]. unfold statuses in *. rewrite omap_app, Hqs. reflexivity.
Qed.

Lemma handleEvent_deliveries_from s r event :
  decoded r = Some event ->
  exists alerts,
    deliveries (fst (handleEvent s r))
    = omap (prepared s (cleanupMetadata event)) alerts
    /\ (snd (handleEvent s r) = Returned tt ->
        alerts = List.filter (admitted s (cleanupMetadata event))
                   (match List_Alerts (kubeClient s) with
                    | Ok items => items
                    | Err _ => []
                    end)).
Proof.
  unfold decoded, handleEvent.
  destruct (Body r) as [body|err]; [|discriminate].
  destruct (json_Unmarshal body) as [ev|err]; [|discriminate].
  intros [= ->]. unfold getAllAlertsForEvent.
  destruct (List_Alerts (kubeClient s)) as [items|err].
  - pose proof (filterAlertsForEvent_quiet s items (cleanupMetadata event)) as [Hqd _].
    destruct (filterAlertsForEvent s items (cleanupMetadata event)) as [t0 [alerts|]] eqn:Hf.
    + apply filterAlertsForEvent_loop_exact in Hf. simpl in Hf, Hqd.
      exists alerts. split; [|intros _; exact Hf]. simpl.
      destruct alerts as [|a rest] eqn:Ha.
      * simpl. unfold deliveries in *. rewrite !omap_app, Hqd. reflexivity.
      * rewrite <- Ha. replace (length alerts =? 0)%nat with false by (now rewrite Ha).
        destruct (handleEvent_dispatch_trace s (cleanupMetadata event) alerts)
          as (t & -> & Hd & _).
        simpl. unfold deliveries in *. rewrite !omap_app, Hqd. simpl.
        rewrite omap_app, Hd. simpl. now rewrite app_nil_r.
    + exists []. simpl in *. split; [assumption | discriminate].
  - exists []. split; reflexivity.
Qed.

(** X9. When the request decodes and handleEvent returns, the deliveries
    it has started are exactly those of the listed alerts that are not
    suspended, match the cleaned event and do not exclude its message, and
    whose notification parameters resolve, in the order of the listing;
    none when the listing fails. *)
Theorem handleEvent_deliveries (s : EventServer) (r : Request) (event : Event) :
  decoded r = Some event ->
  snd (handleEvent s r) = Returned tt ->
  deliveries (fst (handleEvent s r))
  = omap (prepared s (cleanupMetadata event))
         (List.filter (admitted s (cleanupMetadata event))
            (match List_Alerts (kubeClient s) with
             | Ok items => items
             | Err _ => []
             end)).
Proof.
  intros Hd Hr. destruct (handleEvent_deliveries_from s r event Hd) as (alerts & Heq & Ha).
  rewrite Heq, (Ha Hr). reflexivity.
Qed.

(** The notification getNotificationParams builds from an event for an
    alert: the event, with the alert's summary in its metadata when the
    alert has one. *)
Definition notificationFor (event : Event) (alert : Alert) : Event :=
  if String.eqb (Summary (alert_Spec alert)) "" then event
  else with_Metadata event
         (Some (<["summary" := Summary (alert_Spec alert)]> (entries event))).

Lemma getNotificationParams_Some s event alert d :
  getNotificationParams s event alert = Ok (Some d) ->
  (noCrossNamespaceRefs s = false
   \/ Namespace (InvolvedObject event) = alert_Namespace alert)
  /\ exists provider,
       Get_Provider (kubeClient s) (alert_Namespace alert)
         (ProviderRef (alert_Spec alert)) = Ok provider
       /\ provider_Suspend (provider_Spec provider) = false
       /\ createNotifier (kubeClient s) provider = Ok (d_sender d, d_token d)
       /\ d_timeout d = GetTimeout provider
       /\ d_notification d = notificationFor event alert.
Proof.
  unfold getNotificationParams. intros Hd.
  assert (Hns : noCrossNamespaceRefs s = false
                \/ Namespace (InvolvedObject event) = alert_Namespace alert).
  { destruct (noCrossNamespaceRefs s); [|left; reflexivity].
    destruct (String.eqb_spec (Namespace (InvolvedObject event)) (alert_Namespace alert));
      [right; assumption | discriminate]. }
  split; [exact Hns|].
  assert (Hgate : noCrossNamespaceRefs s
                  && negb (String.eqb (Namespace (InvolvedObject event))
                             (alert_Namespace alert)) = false).
  { destruct Hns as [-> | ->]; [reflexivity|].
    rewrite String.eqb_refl. apply andb_false_r. }
  rewrite Hgate in Hd.
  destruct (Get_Provider (kubeClient s) (alert_Namespace alert)
              (ProviderRef (alert_Spec alert))) as [provider|] eqn:Hp; [|discriminate].
  destruct (provider_Suspend (provider_Spec provider)) eqn:Hs; [discriminate|].
  destruct (createNotifier (kubeClient s) provider) as [[sender tok]|] eqn:Hc;
    [|discriminate].
  injection Hd as <-. exists provider. simpl.
  split; [reflexivity|]. split; [exact Hs|]. split; [exact Hc|].
  split; [reflexivity|]. unfold notificationFor, entries.
  destruct (String.eqb (Summary (alert_Spec alert)) ""); simpl; [reflexivity|].
  destruct (Metadata event); reflexivity.
Qed.

(** X10. getNotificationParams resolves to a delivery only if the event's
    namespace is the alert's or cross-namespace references are allowed,
    the alert's provider is read from the alert's namespace and is not
    suspended, and createNotifier succeeds for it; the delivery then holds
    that notifier and token and the provider's timeout, which is 15
    seconds when the provider sets none. *)
Theorem getNotificationParams_resolved (s : EventServer) (event : Event)
    (alert : Alert) (d : Delivery) :
  getNotificationParams s event alert = Ok (Some d) ->
  (noCrossNamespaceRefs s = false
   \/ Namespace (InvolvedObject event) = alert_Namespace alert)
  /\ exists provider,
       Get_Provider (kubeClient s) (alert_Namespace alert)
         (ProviderRef (alert_Spec alert)) = Ok provider
       /\ provider_Suspend (provider_Spec provider) = false
       /\ createNotifier (kubeClient s) provider = Ok (d_sender d, d_token d)
       /\ d_timeout d = default (15 * Second)%Z (Timeout (provider_Spec provider)).
Proof.
  intros Hd. apply getNotificationParams_Some in Hd as (Hns & provider & Hp & Hs & Hc & Ht & _).
  split; [assumption|]. exists provider.
  split; [exact Hp|]. split; [exact Hs|]. split; [exact Hc|].
  rewrite Ht. unfold GetTimeout. destruct (Timeout (provider_Spec provider)); reflexivity.
Qed.

(** X11. The notification of a resolved delivery is the event with, at
    most, its metadata changed: when the alert has a summary the key
    "summary" holds it, replacing a value the event had there, and every
    other key keeps its value; without a summary the metadata is
    untouched. *)
Theorem getNotificationParams_summary (s : EventServer) (event : Event)
    (alert : Alert) (d : Delivery) :
  getNotificationParams s event alert = Ok (Some d) ->
  with_Metadata (d_notification d) None = with_Metadata event None
  /\ (Summary (alert_Spec alert) = "" -> d_notification d = event)
  /\ (Summary (alert_Spec alert) <> "" ->
      entries (d_notification d) !! "summary" = Some (Summary (alert_Spec alert)))
  /\ (forall k, k <> "summary" ->
                entries (d_notification d) !! k = entries event !! k).
Proof.
  intros Hd. apply getNotificationParams_Some in Hd as (_ & provider & _ & _ & _ & _ & ->).
  unfold notificationFor.
  destruct (String.eqb_spec (Summary (alert_Spec alert)) "") as [He|Hne].
  - repeat split; auto. intros Hne. contradiction.
  - split; [reflexivity|]. split; [intros He; contradiction|]. split.
    + intros _. apply lookup_insert_eq.
    + intros k Hk. unfold entries at 1. simpl. now apply lookup_insert_ne.
Qed.

(** X12. Every notification handleEvent hands to a delivery has a non-nil
    metadata map, which agrees with the cleaned metadata of the event on
    every key but "summary". *)
Theorem handleEvent_notifications (s : EventServer) (r : Request) (event : Event)
    (d : Delivery) :
  decoded r = Some event ->
  d ∈ deliveries (fst (handleEvent s r)) ->
  Metadata (d_notification d) <> None
  /\ forall k, k <> "summary" ->
               entries (d_notification d) !! k = entries (cleanupMetadata event) !! k.
Proof.
  intros Hdec Hin.
  destruct (handleEvent_deliveries_from s r event Hdec) as (alerts & Heq & _).
  rewrite Heq in Hin. apply list_elem_of_omap in Hin as (alert & _ & Hp).
  unfold prepared in Hp.
  destruct (getNotificationParams s (cleanupMetadata event) alert) as [[d'|]|] eqn:Hg;
    try discriminate.
  injection Hp as ->.
  apply getNotificationParams_Some in Hg as (_ & provider & _ & _ & _ & _ & Hn).
  rewrite Hn. unfold notificationFor. split.
  - destruct (String.eqb (Summary (alert_Spec alert)) ""); [|discriminate].
    rewrite cleanupMetadata_Metadata. discriminate.
  - intros k Hk. destruct (String.eqb (Summary (alert_Spec alert)) ""); [reflexivity|].
    unfold entries at 1. simpl. now apply lookup_insert_ne.
Qed.

(** *** createNotifier *)

Lemma createNotifier_secret_Ok kubeClient provider c c' :
  createNotifier_secret kubeClient provider c = Ok c' ->
  match SecretRef (provider_Spec provider) with
  | None => c' = c
  | Some name =>
      exists secret,
        Get_Secret kubeClient (provider_Namespace provider) name = Ok secret
        /\ webhook c' = default (webhook c) (Data secret !! "address")
        /\ proxy c' = default (proxy c) (Data secret !! "proxy")
        /\ username c' = default (username c) (Data secret !! "username")
        /\ token c' = default (token c) (Data secret !! "token")
        /\ password c' = default (password c) (Data secret !! "password")
        /\ (forall a, Data secret !! "address" = Some a -> url_Parse a = None)
        /\ (forall p, Data secret !! "proxy" = Some p -> url_Parse p = None)
        /\ match Data secret !! "headers" with
           | Some h => yaml_Unmarshal h = Ok (headers c')
           | None => headers c' = headers c
           end
  end.
Proof.
  unfold createNotifier_secret.
  destruct (SecretRef (provider_Spec provider)) as [name|]; [|now intros [= <-]].
  destruct (Get_Secret kubeClient (provider_Namespace provider) name) as [secret|];
    [|discriminate].
  intros Hr. exists secret. split; [reflexivity|]. revert Hr.
  destruct (Data secret !! "address") as [a|]; simpl.
  - destruct (url_Parse a) eqn:Ha; simpl; [discriminate|].
    destruct (Data secret !! "proxy") as [p|]; simpl.
    + destruct (url_Parse p) eqn:Hp; simpl; [discriminate|].
      destruct (Data secret !! "headers") as [h|]; simpl.
      * destruct (yaml_Unmarshal h) eqn:Hh; simpl; [|discriminate].
        intros [= <-]. simpl. repeat split; auto; congruence.
      * intros [= <-]. simpl. repeat split; auto; congruence.
    + destruct (Data secret !! "headers") as [h|]; simpl.
      * destruct (yaml_Unmarshal h) eqn:Hh; simpl; [|discriminate].
        intros [= <-]. simpl. repeat split; auto; congruence.
      * intros [= <-]. simpl. repeat split; auto; congruence.
  - destruct (Data secret !! "proxy") as [p|]; simpl.
    + destruct (url_Parse p) eqn:Hp; simpl; [discriminate|].
      destruct (Data secret !! "headers") as [h|]; simpl.
      * destruct (yaml_Unmarshal h) eqn:Hh; simpl; [|discriminate].
        intros [= <-]. simpl. repeat split; auto; congruence.
      * intros [= <-]. simpl. repeat split; auto; congruence.
    + destruct (Data secret !! "headers") as [h|]; simpl.
      * destruct (yaml_Unmarshal h) eqn:Hh; simpl; [|discriminate].
        intros [= <-]. simpl. repeat split; auto; congruence.
      * intros [= <-]. simpl. repeat split; auto; congruence.
Qed.

Lemma createNotifier_certPool_Ok kubeClient provider pool :
  createNotifier_certPool kubeClient provider = Ok pool ->
  match CertSecretRef (provider_Spec provider) with
  | None => pool = None
  | Some name =>
      exists secret pem p,
        Get_Secret kubeClient (provider_Namespace provider) name = Ok secret
        /\ Data secret !! "caFile" = Some pem
        /\ AppendCertsFromPEM pem = Some p
        /\ pool = Some p
  end.
Proof.
  unfold createNotifier_certPool.
  destruct (CertSecretRef (provider_Spec provider)) as [name|]; [|now intros [= <-]].
  destruct (Get_Secret kubeClient (provider_Namespace provider) name) as [secret|] eqn:Hg;
    [|discriminate].
  destruct (Data secret !! "caFile") as [pem|] eqn:Hca; [|discriminate].
  destruct (AppendCertsFromPEM pem) as [p|] eqn:Hp; [|discriminate].
  intros [= <-]. exists secret, pem, p. auto.
Qed.

(** X13. When createNotifier succeeds, the notifier comes from the
    factory for the provider's type, configured with a non-empty address,
    the provider's channel and UID and the token returned. Without a
    secret the address, proxy and username are the provider's and token,
    password and headers are empty; with a secret, the secret is readable,
    each of its keys address, proxy, username, token and password
    replaces the value it stands for, and its address and proxy parse.
    The certificate pool is nil without a CA secret and otherwise the pool
    read from the key caFile of a readable secret. *)
Theorem createNotifier_succeeds (kubeClient : Client) (provider : Provider)
    (sender : Notifier) (tok : string) :
  createNotifier kubeClient provider = Ok (sender, tok) ->
  exists f,
    Factory_Notifier f (Type_ (provider_Spec provider)) = Ok sender
    /\ f_URL f <> ""
    /\ f_Token f = tok
    /\ f_Channel f = Channel (provider_Spec provider)
    /\ f_ProviderUID f = provider_UID provider
    /\ match SecretRef (provider_Spec provider) with
       | None =>
           f_URL f = Address (provider_Spec provider)
           /\ f_ProxyURL f = Proxy (provider_Spec provider)
           /\ f_Username f = Username (provider_Spec provider)
           /\ tok = "" /\ f_Password f = "" /\ f_Headers f = ∅
       | Some name =>
           exists secret,
             Get_Secret kubeClient (provider_Namespace provider) name = Ok secret
             /\ f_URL f = default (Address (provider_Spec provider))
                            (Data secret !! "address")
             /\ f_ProxyURL f = default (Proxy (provider_Spec provider))
                                 (Data secret !! "proxy")
             /\ f_Username f = default (Username (provider_Spec provider))
                                 (Data secret !! "username")
             /\ tok = default "" (Data secret !! "token")
             /\ f_Password f = default "" (Data secret !! "password")
             /\ (forall a, Data secret !! "address" = Some a -> url_Parse a = None)
             /\ (forall p, Data secret !! "proxy" = Some p -> url_Parse p = None)
       end
    /\ match CertSecretRef (provider_Spec provider) with
       | None => f_CertPool f = None
       | Some name =>
           exists secret pem p,
             Get_Secret kubeClient (provider_Namespace provider) name = Ok secret
             /\ Data secret !! "caFile" = Some pem
             /\ AppendCertsFromPEM pem = Some p
             /\ f_CertPool f = Some p
       end.
Proof.
  unfold createNotifier.
  destruct (createNotifier_secret kubeClient provider _) as [c|] eqn:Hs; [|discriminate].
  destruct (createNotifier_certPool kubeClient provider) as [pool|] eqn:Hc; [|discriminate].
  simpl. destruct (String.eqb_spec (webhook c) "") as [|Hne]; [discriminate|].
  destruct (Factory_Notifier _ _) as [n|] eqn:Hf; [|discriminate].
  intros [= <- <-]. eexists. split; [exact Hf|]. simpl.
  split; [exact Hne|]. split; [reflexivity|]. split; [reflexivity|].
  split; [reflexivity|].
  apply createNotifier_secret_Ok in Hs. apply createNotifier_certPool_Ok in Hc.
  split.
  - destruct (SecretRef (provider_Spec provider)) as [name|].
    + destruct Hs as (secret & Hg & Hw & Hp & Hu & Ht & Hpw & Ha & Hpp & _).
      exists secret. simpl in *. repeat split; auto.
    + subst c. simpl. auto 7.
  - destruct (CertSecretRef (provider_Spec provider)) as [name|]; auto.
Qed.

(** X14. When the provider names a secret, an unreadable secret or an
    address in it that does not parse makes createNotifier fail with that
    error, whatever the provider's own address is. *)
Theorem createNotifier_secret_errors (kubeClient : Client) (provider : Provider)
    (name : string) :
  SecretRef (provider_Spec provider) = Some name ->
  (forall err,
      Get_Secret kubeClient (provider_Namespace provider) name = Err err ->
      createNotifier kubeClient provider = Err (wrap "failed to read secret" err))
  /\ (forall secret address err,
        Get_Secret kubeClient (provider_Namespace provider) name = Ok secret ->
        Data secret !! "address" = Some address ->
        url_Parse address = Some err ->
        createNotifier kubeClient provider
        = Err (wrap ("invalid address in secret '" +:+ address +:+ "'") err)).
Proof.
  intros Hs. unfold createNotifier, createNotifier_secret. rewrite Hs. split.
  - intros err ->. reflexivity.
  - intros secret address err -> -> ->. reflexivity.
Qed.

End DispatcherOutcomes.

(** ** Further properties of cleanupMetadata *)

Section CleanupBounds.
Context `{Strings} `{MapRange}.

Lemma cleaned_size group l acc :
  size (cleaned group l acc) <= size acc + length l.
Proof.
  revert acc. induction l as [|[k v] l IH]; intros acc; [simpl; lia|].
  rewrite cleaned_cons. etransitivity; [apply IH|]. simpl.
  destruct (keeps group k); [|lia].
  rewrite map_size_insert. destruct (acc !! newKey group k); simpl; lia.
Qed.

(** X15. cleanupMetadata never adds an entry: the map it leaves has at
    most as many entries as the event's metadata had, and none when the
    metadata was nil or empty. *)
Theorem cleanupMetadata_size (event : Event) :
  size (entries (cleanupMetadata event)) <= size (entries event)
  /\ (entries event = ∅ -> Metadata (cleanupMetadata event) = Some ∅).
Proof.
  rewrite entries_cleanupMetadata, cleanupMetadata_Metadata. split.
  - etransitivity; [apply cleaned_size|].
    rewrite map_size_empty, (range_perm (entries event)), length_map_to_list. lia.
  - intros ->. pose proof (range_perm (∅ : gmap string string)) as Hp.
    rewrite map_to_list_empty in Hp. apply Permutation_nil_r in Hp.
    now rewrite Hp.
Qed.

End CleanupBounds.

(** ** The other copy of the CDEvents sender (src/unnamed/part_000)

    It differs from internal/notifier/cdevents.go in the case of
    reconciliationsucceeded, which builds a PipelineRunFinished event, and
    in calling postMessage without a request hook. The SDK's event id and
    timestamp are not read here and are left out of the payload. *)

Module notifier_part_000.

Inductive CDEventType :=
| EnvironmentModified
| TaskRunFinished
| TestCaseRunFinished
| PipelineRunFinished
| IncidentDetected.

Record CDEvent := {
  cd_Type : CDEventType;
  cd_Source : string;
  cd_SubjectId : string;
  cd_SubjectOutcome : string;
  cd_CustomData : option (string * Event)
}.

(** Modelled from the spec: postMessage, the package's shared transport of
    section 4.B, declared outside the sources at hand, here without the
    request hook; the other field stands for crypto/x509's certificate
    pools. *)
Class Env := {
  CertPool : Type;
  postMessage : string -> string -> option CertPool -> CDEvent -> option error
}.

Section Sender.
Context `{Strings} `{MapRange} `{Env}.

Definition NewEvent (t : CDEventType) : CDEvent :=
  {| cd_Type := t; cd_Source := ""; cd_SubjectId := ""; cd_SubjectOutcome := "";
     cd_CustomData := None |}.

Definition SetSubjectOutcome (p : CDEvent) (o : string) : CDEvent :=
  {| cd_Type := cd_Type p; cd_Source := cd_Source p; cd_SubjectId := cd_SubjectId p;
     cd_SubjectOutcome := o; cd_CustomData := cd_CustomData p |}.

Definition SetSource (p : CDEvent) (src : string) : CDEvent :=
  {| cd_Type := cd_Type p; cd_Source := src; cd_SubjectId := cd_SubjectId p;
     cd_SubjectOutcome := cd_SubjectOutcome p; cd_CustomData := cd_CustomData p |}.

Definition SetCustomData (p : CDEvent) (contentType : string) (data : Event) : CDEvent :=
  {| cd_Type := cd_Type p; cd_Source := cd_Source p; cd_SubjectId := cd_SubjectId p;
     cd_SubjectOutcome := cd_SubjectOutcome p;
     cd_CustomData := Some (contentType, data) |}.

Definition SetSubjectId (p : CDEvent) (id : string) : CDEvent :=
  {| cd_Type := cd_Type p; cd_Source := cd_Source p; cd_SubjectId := id;
     cd_SubjectOutcome := cd_SubjectOutcome p; cd_CustomData := cd_CustomData p |}.

Record CDEvents := {
  URL : string;
  ProxyURL : string;
  cde_CertPool : option CertPool
}.

(** The switch of Post on the lower-cased Reason. *)
Definition Post_switch (event : Event) : CDEvent :=
  let reason := ToLower (Reason event) in
  if String.eqb reason "installsucceeded" then
    NewEvent EnvironmentModified
  else if String.eqb reason "upgradesucceeded" then
    SetSubjectOutcome (NewEvent TaskRunFinished) "Success"
  else if String.eqb reason "upgradefailed" then
    SetSubjectOutcome (NewEvent TaskRunFinished) "Failure"
  else if String.eqb reason "testsucceeded" then
    SetSubjectOutcome (NewEvent TestCaseRunFinished) "Success"
  else if String.eqb reason "testfailed" then
    SetSubjectOutcome (NewEvent TestCaseRunFinished) "Success"
  else if String.eqb reason "rollbacksucceeded" then
    SetSubjectOutcome (NewEvent TaskRunFinished) "Success"
  else if String.eqb reason "rollbackfailed" then
    SetSubjectOutcome (NewEvent TaskRunFinished) "Failure"
  else if String.eqb reason "driftdetected" then
    SetSubjectOutcome (NewEvent TaskRunFinished) "Failure"
  else if String.eqb reason "reconciliationsucceeded" then
    SetSubjectOutcome (NewEvent PipelineRunFinished) "Success"
  else
    NewEvent IncidentDetected.

(** The payload Post hands to postMessage. *)
Definition Post_payload (event : Event) : CDEvent :=
  let payload := Post_switch event in
  let sourceFormat := Name (InvolvedObject event) +:+ "." +:+ Kind (InvolvedObject event) in
  let payload := SetSource payload sourceFormat in
  let payload := SetCustomData payload "application/json" event in
  SetSubjectId payload (UID (InvolvedObject event)).

(** Post CDEvents message; [facts] is built and never read, [err1] is
    declared and never assigned, as in the other copy. *)
Definition Post (s : CDEvents) (event : Event) : option error :=
  let facts :=
    match Metadata event with
    | Some md =>
        List.map (fun kv => {| notifier.field_Name := fst kv;
                               notifier.field_Value := snd kv |}) (range md)
    | None => []
    end in
  let err1 : option error := None in
  let payload := Post_payload event in
  let err := postMessage (URL s) (ProxyURL s) (cde_CertPool s) payload in
  match err, err1 with
  | Some e, Some _ => Some (wrap "postMessage failed" e)
  | _, _ => None
  end.

End Sender.
End notifier_part_000.

(** ** The two copies of the sender compared *)

Section SenderCopies.
Context `{Strings} `{MapRange} `{NE : notifier.Env} `{NE0 : notifier_part_000.Env}.

(** The kind of cdevents.go that stands for a kind of the other copy;
    PipelineRunFinished has none. *)
Definition sameKind (t : notifier_part_000.CDEventType) : option CDEventType :=
  match t with
  | notifier_part_000.EnvironmentModified => Some EnvironmentModified
  | notifier_part_000.TaskRunFinished => Some TaskRunFinished
  | notifier_part_000.TestCaseRunFinished => Some TestCaseRunFinished
  | notifier_part_000.PipelineRunFinished => None
  | notifier_part_000.IncidentDetected => Some IncidentDetected
  end.

(** X16. The two copies of Post build the same payload (kind, outcome,
    source, subject id and custom data) for every event whose lower-cased
    Reason is not reconciliationsucceeded; for that Reason the copy of
    part_000 builds PipelineRunFinished with outcome Success where
    cdevents.go builds ServiceDeployed without an outcome. *)
Theorem Post_payload_copies (event : Event) :
  notifier_part_000.cd_Source (notifier_part_000.Post_payload event)
  = cd_Source (Post_payload event)
  /\ notifier_part_000.cd_SubjectId (notifier_part_000.Post_payload event)
     = cd_SubjectId (Post_payload event)
  /\ notifier_part_000.cd_CustomData (notifier_part_000.Post_payload event)
     = cd_CustomData (Post_payload event)
  /\ (ToLower (Reason event) <> "reconciliationsucceeded" ->
      sameKind (notifier_part_000.cd_Type (notifier_part_000.Post_payload event))
      = Some (cd_Type (Post_payload event))
      /\ notifier_part_000.cd_SubjectOutcome (notifier_part_000.Post_payload event)
         = cd_SubjectOutcome (Post_payload event))
  /\ (ToLower (Reason event) = "reconciliationsucceeded" ->
      notifier_part_000.cd_Type (notifier_part_000.Post_payload event)
      = notifier_part_000.PipelineRunFinished
      /\ notifier_part_000.cd_SubjectOutcome (notifier_part_000.Post_payload event)
         = "Success"
      /\ cd_Type (Post_payload event) = ServiceDeployed
      /\ cd_SubjectOutcome (Post_payload event) = "").
Proof.
  unfold notifier_part_000.Post_payload, notifier_part_000.Post_switch,
    Post_payload, Post_switch. cbv zeta.
  split; [reflexivity|]. split; [reflexivity|]. split; [reflexivity|]. split.
  - intros Hne. apply String.eqb_neq in Hne. rewrite !Hne.
    destruct (String.eqb (ToLower (Reason event)) "installsucceeded");
      [split; reflexivity|].
    destruct (String.eqb (ToLower (Reason event)) "upgradesucceeded");
      [split; reflexivity|].
    destruct (String.eqb (ToLower (Reason event)) "upgradefailed");
      [split; reflexivity|].
    destruct (String.eqb (ToLower (Reason event)) "testsucceeded");
      [split; reflexivity|].
    destruct (String.eqb (ToLower (Reason event)) "testfailed");
      [split; reflexivity|].
    destruct (String.eqb (ToLower (Reason event)) "rollbacksucceeded");
      [split; reflexivity|].
    destruct (String.eqb (ToLower (Reason event)) "rollbackfailed");
      [split; reflexivity|].
    destruct (String.eqb (ToLower (Reason event)) "driftdetected");
      split; reflexivity.
  - intros ->. repeat split; reflexivity.
Qed.

(** X17. The copy of Post in part_000 also returns nil for every event,
    whatever postMessage returns. *)
Theorem Post_part_000_returns_nil (s : notifier_part_000.CDEvents) (event : Event) :
  notifier_part_000.Post s event = None.
Proof.
  unfold notifier_part_000.Post. cbv zeta.
  destruct (notifier_part_000.postMessage _ _ _ _); reflexivity.
Qed.

End SenderCopies.

(** ** A second set of sample collaborators, with a provider that resolves *)

Module Sample2.
Import Sample.

Definition quote : string := String (ascii_of_nat 34) EmptyString.

Definition field (key value : string) : string :=
  quote +:+ key +:+ quote +:+ ":" +:+ quote +:+ value +:+ quote.

(** The JSON of [revised]: a HelmRelease event with one metadata entry. *)
Definition installedBody : string :=
  "{" +:+ quote +:+ "involvedObject" +:+ quote +:+ ":{"
  +:+ field "kind" "HelmRelease" +:+ "," +:+ field "namespace" "ns1" +:+ ","
  +:+ field "name" "podinfo" +:+ "," +:+ field "uid" "b6d37d27" +:+ ","
  +:+ field "apiVersion" "helm.toolkit.fluxcd.io/v2beta2" +:+ ","
  +:+ field "resourceVersion" "437798" +:+ "},"
  +:+ field "severity" "info" +:+ "," +:+ field "message" "install ok" +:+ ","
  +:+ field "reason" "InstallSucceeded" +:+ ","
  +:+ quote +:+ "metadata" +:+ quote +:+ ":{"
  +:+ field "helm.toolkit.fluxcd.io/revision" "1.0" +:+ "}}".

(** As [senv], with a decoder that also reads [installedBody]. *)
Definition senv2 : @server.Env nenv :=
  {| Regexp := string;
     regexp_Compile := fun exp =>
       if all_word_chars exp then Ok exp
       else Err ("error parsing regexp: " +:+ exp);
     regexp_Match := fun r msg => contains msg r;
     url_Parse := fun u =>
       if contains u " " then Some "invalid character in host name" else None;
     yaml_Unmarshal := fun _ => Ok ∅;
     AppendCertsFromPEM := (fun pem => Some pem) : string -> option (@CertPool nenv);
     json_Unmarshal := fun body =>
       if String.eqb body installedBody then Ok revised
       else if String.eqb body "{}" then Ok (event_of emptyObject "" "" "" None)
       else Err "unexpected end of JSON input";
     MaskTokenFromString := fun s _ => Ok s |}.

Definition summarised : Alert :=
  {| alert_Name := "summarised"; alert_Namespace := "ns1";
     alert_Spec := {| ProviderRef := "slack1"; EventSeverity := "info";
                      EventSources := [anyHelmRelease]; ExclusionList := [];
                      Summary := "prod cluster"; alert_Suspend := false |} |}.

Definition labelled : CrossNamespaceObjectReference :=
  source_of "HelmRelease" "*" "ns1" (Some (<["app" := "podinfo"]> ∅)).

Definition unlabelled : CrossNamespaceObjectReference :=
  source_of "HelmRelease" "*" "ns1" (Some ∅).

(** A store whose provider slack1 has an address and a secret, "creds",
    with a token; the secret "broken" holds an address with a space; no
    object's labels can be read. *)
Definition store2 : Client :=
  {| List_Alerts := Ok [paused; live; summarised];
     Get_Provider := fun ns name =>
       if String.eqb ns "ns1" && String.eqb name "slack1"
       then Ok (slack1 "http://slack.example" (Some "creds")) else Err "not found";
     Get_Secret := fun ns name =>
       if String.eqb ns "ns1" && String.eqb name "creds"
       then Ok {| Data := <["token" := "super-secret"]> ∅ |}
       else if String.eqb ns "ns1" && String.eqb name "broken"
       then Ok {| Data := <["address" := "http://slack example"]> ∅ |}
       else Err "not found";
     Get_Labels := fun _ _ _ => Err "not found" |}.

Definition srv2 : EventServer :=
  {| kubeClient := store2; noCrossNamespaceRefs := true |}.

Definition cleanedRevised : Event :=
  event_of helmRelease "info" "install ok" "InstallSucceeded"
    (Some (<["revision" := "1.0"]> ∅)).

End Sample2.

Section OutcomeWitnesses.
Import Sample Sample2.

#[local] Existing Instances ascii_Strings fixed_MapRange labels nenv iface senv2.

Lemma eventMatchesAlert_without_labels_witness :
  eventMatchesAlert srv2 installed (source_of "HelmRelease" "*" "ns1" None) "error"
  = ([], Returned false)
  /\ eventMatchesAlert srv2 installed (source_of "HelmRelease" "podinfo" "ns1" None) "info"
     = ([], Returned true).
Proof.
  split.
  - exact (eventMatchesAlert_without_labels srv2 installed
             (source_of "HelmRelease" "*" "ns1" None) "error" eq_refl).
  - exact (eventMatchesAlert_without_labels srv2 installed
             (source_of "HelmRelease" "podinfo" "ns1" None) "info" eq_refl).
Defined.

(** The object's labels cannot be read: a selector on app=podinfo does
    not match, an empty selector does. *)
Lemma eventMatchesAlert_fetch_failure_witness :
  eventMatchesAlert srv2 installed labelled "info"
  = ([fetchFailure installed "not found"], Returned false)
  /\ eventMatchesAlert srv2 installed unlabelled "info"
     = ([fetchFailure installed "not found"], Returned true).
Proof.
  split.
  - exact (eventMatchesAlert_fetch_failure srv2 installed labelled "info"
             (<["app" := "podinfo"]> ∅) (<["app" := "podinfo"]> ∅) "not found"
             eq_refl eq_refl eq_refl eq_refl).
  - exact (eventMatchesAlert_fetch_failure srv2 installed unlabelled "info"
             ∅ ∅ "not found" eq_refl eq_refl eq_refl eq_refl).
Defined.

Lemma eventMatchesAlertSources_any_witness :
  eventMatchesAlertSources srv2 installed live = ([], Returned true).
Proof.
  apply (eventMatchesAlertSources_any srv2 installed live).
  intros src Hin. apply list_elem_of_singleton in Hin. subst src. reflexivity.
Defined.

Lemma filterAlertsForEvent_sample :
  filterAlertsForEvent srv2 [paused; live; quiet; summarised] drifted
  = ([compileFailure "(" "error parsing regexp: ("], Returned [live; summarised]).
Proof. vm_compute. reflexivity. Qed.

Lemma filterAlertsForEvent_exact_witness :
  [live; summarised]
  = List.filter (admitted srv2 drifted) [paused; live; quiet; summarised].
Proof.
  exact (filterAlertsForEvent_exact srv2 [paused; live; quiet; summarised] drifted
           _ _ filterAlertsForEvent_sample).
Defined.

Lemma messageIsExcluded_stops_at_match_witness :
  messageIsExcluded "Cluster drift detected" (["("] ++ "drift" :: ["["; "install"])
  = messageIsExcluded "Cluster drift detected" (["("] ++ ["drift"]).
Proof.
  apply (messageIsExcluded_stops_at_match "Cluster drift detected" ["("] ["["; "install"] "drift").
  exists "drift". split; reflexivity.
Defined.

Definition slackNotifier : @Notifier nenv iface := ("slack", "http://slack.example").

Definition liveDelivery : Delivery :=
  {| d_sender := slackNotifier;
     d_notification := cleanedRevised;
     d_token := "super-secret";
     d_timeout := (15 * Second)%Z |}.

Definition summarisedDelivery : Delivery :=
  {| d_sender := slackNotifier;
     d_notification :=
       event_of helmRelease "info" "install ok" "InstallSucceeded"
         (Some (<["summary" := "prod cluster"]> (<["revision" := "1.0"]> ∅)));
     d_token := "super-secret";
     d_timeout := (15 * Second)%Z |}.

Lemma handleEvent_sample :
  handleEvent srv2 {| Body := Ok installedBody |}
  = ([LogInfo "Dispatching event: install ok"
        ["reconciler kind"; "HelmRelease"; "name"; "podinfo"; "namespace"; "ns1"];
      GoDeliver liveDelivery; GoDeliver summarisedDelivery; WriteHeader 202],
     Returned tt).
Proof. vm_compute. reflexivity. Qed.

Lemma decoded_sample : decoded {| Body := Ok installedBody |} = Some revised.
Proof. vm_compute. reflexivity. Qed.

Lemma cleanupMetadata_sample : cleanupMetadata revised = cleanedRevised.
Proof. vm_compute. reflexivity. Qed.

Lemma getNotificationParams_sample :
  getNotificationParams srv2 cleanedRevised summarised = Ok (Some summarisedDelivery).
Proof. vm_compute. reflexivity. Qed.

Lemma handleEvent_deliveries_witness :
  deliveries (fst (handleEvent srv2 {| Body := Ok installedBody |}))
  = omap (prepared srv2 (cleanupMetadata revised))
         (List.filter (admitted srv2 (cleanupMetadata revised))
            [paused; live; summarised]).
Proof.
  apply (handleEvent_deliveries srv2 {| Body := Ok installedBody |} revised).
  - exact decoded_sample.
  - rewrite handleEvent_sample. reflexivity.
Defined.

Lemma getNotificationParams_resolved_witness :
  exists provider,
    Get_Provider store2 "ns1" "slack1" = Ok provider
    /\ provider_Suspend (provider_Spec provider) = false.
Proof.
  destruct (getNotificationParams_resolved srv2 cleanedRevised summarised
              summarisedDelivery getNotificationParams_sample)
    as (_ & provider & Hp & Hs & _).
  exists provider. split; [exact Hp | exact Hs].
Defined.

Lemma getNotificationParams_summary_witness :
  entries (d_notification summarisedDelivery) !! "summary" = Some "prod cluster"
  /\ entries (d_notification summarisedDelivery) !! "revision"
     = entries cleanedRevised !! "revision".
Proof.
  destruct (getNotificationParams_summary srv2 cleanedRevised summarised
              summarisedDelivery getNotificationParams_sample)
    as (_ & _ & Hsum & Hother).
  split; [apply Hsum; discriminate | apply Hother; discriminate].
Defined.

Lemma handleEvent_notifications_witness :
  Metadata (d_notification summarisedDelivery) <> None.
Proof.
  apply (handleEvent_notifications srv2 {| Body := Ok installedBody |} revised
           summarisedDelivery decoded_sample).
  rewrite handleEvent_sample. right. left.
Defined.

Lemma createNotifier_sample2 :
  createNotifier store2 (slack1 "http://slack.example" (Some "creds"))
  = Ok (("slack", "http://slack.example"), "super-secret").
Proof. vm_compute. reflexivity. Qed.

Lemma createNotifier_succeeds_witness :
  exists f,
    Factory_Notifier f "slack" = Ok slackNotifier
    /\ f_URL f <> "" /\ f_Token f = "super-secret".
Proof.
  destruct (createNotifier_succeeds store2 (slack1 "http://slack.example" (Some "creds"))
              slackNotifier "super-secret" createNotifier_sample2)
    as (f & Hf & Hu & Ht & _).
  exists f. split; [exact Hf|]. split; [exact Hu | exact Ht].
Defined.

(** A secret that cannot be read, and a secret whose address has a space
    in it. *)
Lemma createNotifier_secret_errors_witness :
  createNotifier store2 (slack1 "http://slack.example" (Some "missing"))
  = Err "failed to read secret: not found"
  /\ createNotifier store2 (slack1 "http://slack.example" (Some "broken"))
     = Err "invalid address in secret 'http://slack example': invalid character in host name".
Proof.
  split.
  - apply (proj1 (createNotifier_secret_errors store2
                    (slack1 "http://slack.example" (Some "missing")) "missing" eq_refl)).
    reflexivity.
  - apply (proj2 (createNotifier_secret_errors store2
                    (slack1 "http://slack.example" (Some "broken")) "broken" eq_refl)
             {| Data := <["address" := "http://slack example"]> ∅ |}
             "http://slack example" "invalid character in host name");
      reflexivity.
Defined.

End OutcomeWitnesses.

(** ** cleanupMetadata and the order of the range statement *)

Section CleanupOrder.
Context `{Strings}.



End CleanupOrder.

(** The order of [map_to_list] reversed. *)
Definition reversed_MapRange : MapRange :=
  {| range := fun m => reverse (map_to_list m);
     range_perm := fun m => reverse_Permutation (map_to_list m) |}.

Section CleanupOrderExamples.

(** Two keys of the group's prefix stored under one new key: the value
    kept is that of the entry visited last. *)
Definition colliding : Event :=
  Sample.event_of Sample.helmRelease "info" "m" "r"
    (Some (<["helm.toolkit.fluxcd.io/helm.toolkit.fluxcd.iox" := "slash"]>
            (<["helm.toolkit.fluxcd.iox" := "plain"]> ∅))).

Example cleanupMetadata_order_matters :
  entries (@cleanupMetadata ascii_Strings fixed_MapRange colliding)
  !! "helm.toolkit.fluxcd.iox"
  <> entries (@cleanupMetadata ascii_Strings reversed_MapRange colliding)
     !! "helm.toolkit.fluxcd.iox".
Proof. vm_compute. discriminate. Qed.


End CleanupOrderExamples.

(** ** Alerts that dispatchNotification passes over *)

Section DispatchSkips.
Context `{Strings} `{MapRange} `{Labels} `{NE : notifier.Env}
        `{NI : !notifier.Interface} `{SE : !server.Env}.

(** X19. dispatchNotification starts no delivery for an event from another
    namespace than the alert's when cross-namespace references are
    blocked, and returns an error then; it starts none for an alert whose
    provider is suspended, and returns nil then. In both cases it has no
    other effect. *)
Theorem dispatchNotification_skips (s : EventServer) (event : Event) (alert : Alert) :
  (noCrossNamespaceRefs s = true ->
   Namespace (InvolvedObject event) <> alert_Namespace alert ->
   exists err, dispatchNotification s event alert = ret (Some err))
  /\ (forall provider,
        (noCrossNamespaceRefs s = false
         \/ Namespace (InvolvedObject event) = alert_Namespace alert) ->
        Get_Provider (kubeClient s) (alert_Namespace alert)
          (ProviderRef (alert_Spec alert)) = Ok provider ->
        provider_Suspend (provider_Spec provider) = true ->
        dispatchNotification s event alert = ret None).
Proof.
  unfold dispatchNotification, getNotificationParams. split.
  - intros -> Hns. apply String.eqb_neq in Hns. rewrite Hns. simpl. eauto.
  - intros provider Hgate Hp Hs.
    assert (Hg : noCrossNamespaceRefs s
                 && negb (String.eqb (Namespace (InvolvedObject event))
                            (alert_Namespace alert)) = false).
    { destruct Hgate as [-> | ->]; [reflexivity|].
      rewrite String.eqb_refl. apply andb_false_r. }
    rewrite Hg, Hp, Hs. reflexivity.
Qed.

End DispatchSkips.
